(** * TN-Prototype: the client-side aggregation pipeline of the dashboard

    A shallow embedding of the computational core of the [App] component
    (scope filter, cohort aggregator, profile classifier, recommendation
    composer, target-occupation effect) and the properties its
    specification states about it.

    Conventions of the model:
    - a JS number is an exact rational ([Qc]); the quotients the classifier
      computes live in [jsnum], which adds NaN and the two infinities a
      division by zero produces.  Sums over [Qc] do not round: a property
      that holds of them only is stated as one over exact arithmetic.  The
      aggregation is given a second time over binary64 numbers, in
      [Binary64], to show where rounding makes the program differ;
    - a JS object used as a label -> number table is the list of its own
      properties in insertion order ([Obj]); [Object_entries] lists array-index
      keys first, in ascending order, as the language does.  Labels that name
      members of [Object.prototype] are outside the model;
    - [Array.prototype.sort] is a stable sort; with a consistent comparator
      its result is determined by the sign of the comparator alone.

    The embedding follows the current revision of the component.  The scope
    filter, the stats, [cohortBreakdowns], the "Stranded Rate" panel and the
    target-occupation effect read the same in the earlier revision, which
    differs in its ordering tables, loader and recommendation list. *)

From stdpp Require Import base list strings numbers sorting pretty.
From Stdlib Require Import Ascii String QArith Qcanon Qround.
From Corelib Require PrimFloat.

#[local] Set Warnings "-inexact-float".

Local Open Scope string_scope.
Local Open Scope list_scope.
Local Open Scope Z_scope.

(** ** Types *)

Inductive MSACategory :=
  | Nashville | Memphis | Knoxville | Chattanooga | OtherMSA | Rural | All.

Definition MSA_str (g : MSACategory) : string :=
  match g with
  | Nashville => "Nashville"
  | Memphis => "Memphis"
  | Knoxville => "Knoxville"
  | Chattanooga => "Chattanooga"
  | OtherMSA => "Other MSA"
  | Rural => "Rural"
  | All => "All"
  end.

#[global] Instance MSACategory_eq_dec : EqDecision MSACategory.
Proof. solve_decision. Defined.

Record DataRow := mkRow {
  msa_category : string;
  NAICS2_NAME : string;
  n_weighted : Qc;
  n_weighted_low_wage : Qc;
  n_weighted_underemployed : Qc;
  n_weighted_stalled : Qc;
  education_level_label : string;
  soc_2019_5_acs_name : string;
  age_group : string
}.

Inductive CohortType := LowWage | Underemployed | Stalled | AllStranded.

Definition Cohort_str (c : CohortType) : string :=
  match c with
  | LowWage => "Low Wage"
  | Underemployed => "Underemployed"
  | Stalled => "Stalled"
  | AllStranded => "All Stranded"
  end.

#[global] Instance CohortType_eq_dec : EqDecision CohortType.
Proof. solve_decision. Defined.

(** Education levels in increasing order of credential. *)
Definition EDUCATION_ORDER : list string :=
  [ "Less than HS";
    "HS diploma/GED";
    "Some college";
    "Associate's degree";
    "Bachelor's degree";
    "Master's degree";
    "Professional/Doctorate" ].

Definition AGE_GROUPS : list string :=
  [ "18-24"; "25-34"; "35-44"; "45-54"; "55-64" ].

(** ** Numbers *)

Definition qz (n : Z) : Qc := Qc_of_Z n.

Inductive jsnum :=
  | Fin (q : Qc)
  | NaN
  | PosInf
  | NegInf.

#[global] Instance jsnum_eq_dec : EqDecision jsnum.
Proof. solve_decision. Defined.

(** [a / b] on finite operands. *)
Definition jsdiv (a b : Qc) : jsnum :=
  if decide (b = 0%Qc) then
    if decide (a = 0%Qc) then NaN
    else if decide (0 < a)%Qc then PosInf else NegInf
  else Fin (a / b)%Qc.

(** [x * c] for a finite, positive constant [c]. *)
Definition jsmul_pos (x : jsnum) (c : Qc) : jsnum :=
  match x with
  | Fin q => Fin (q * c)%Qc
  | other => other
  end.

(** [x > c]: every comparison with NaN is false. *)
Definition jsgt (x : jsnum) (c : Qc) : bool :=
  match x with
  | Fin q => bool_decide (c < q)%Qc
  | PosInf => true
  | NaN | NegInf => false
  end.

(** [Math.round]: the nearest integer, halves towards plus infinity. *)
Definition Math_round (x : jsnum) : jsnum :=
  match x with
  | Fin q => Fin (qz (Qfloor (q + Q2Qc (1 # 2))%Qc))
  | other => other
  end.

(** ** Objects as label tables *)

Abbreviation Obj := (list (string * Qc)).

(** [o[k]]; [None] is [undefined]. *)
Fixpoint obj_get (o : Obj) (k : string) : option Qc :=
  match o with
  | [] => None
  | (k', v) :: o' => if decide (k' = k) then Some v else obj_get o' k
  end.

(** [o[k] = v]: an existing property keeps its place, a new one is appended. *)
Fixpoint obj_set (o : Obj) (k : string) (v : Qc) : Obj :=
  match o with
  | [] => [(k, v)]
  | (k', v') :: o' =>
      if decide (k' = k) then (k', v) :: o' else (k', v') :: obj_set o' k v
  end.

(** [x || 0]: [undefined] and [0] are the falsy cases. *)
Definition or0 (x : option Qc) : Qc :=
  match x with
  | Some v => if decide (v = 0%Qc) then 0%Qc else v
  | None => 0%Qc
  end.

(** [o[k] = (o[k] || 0) + w], the sum exact. *)
Definition accumulate (o : Obj) (k : string) (w : Qc) : Obj :=
  obj_set o k (or0 (obj_get o k) + w)%Qc.

(** ** Sorting *)

Section Array_sort.
Context {A : Type}.
(** [goes_first a b] holds when the comparator does not return a positive
    number on [(a, b)]: a stable sort then leaves [a] before [b]. *)
Variable goes_first : A → A → bool.

Fixpoint sort_insert (x : A) (l : list A) : list A :=
  match l with
  | [] => [x]
  | y :: l' => if goes_first x y then x :: l else y :: sort_insert x l'
  end.

Definition Array_sort (l : list A) : list A := foldr sort_insert [] l.
End Array_sort.

(** A canonical numeric string below 2^32 - 1 is an array index. *)
Definition digit_val (c : ascii) : option N :=
  let n := N_of_ascii c in
  if bool_decide (48 ≤ n ≤ 57)%N then Some (n - 48)%N else None.

Fixpoint digits_val (acc : N) (s : string) : option N :=
  match s with
  | EmptyString => Some acc
  | String c s' =>
      match digit_val c with
      | Some d => digits_val (acc * 10 + d)%N s'
      | None => None
      end
  end.

Definition array_index (s : string) : option N :=
  match s with
  | EmptyString => None
  | String c s' =>
      if bool_decide (c = "0"%char) then
        (if bool_decide (s' = "") then Some 0%N else None)
      else
        match digits_val 0 s with
        | Some n => if bool_decide (n < 4294967295)%N then Some n else None
        | None => None
        end
  end.

Definition index_before (a b : string * Qc) : bool :=
  match array_index a.1, array_index b.1 with
  | Some i, Some j => bool_decide (i ≤ j)%N
  | _, _ => true
  end.

(** [Object.entries(o)] *)
Definition Object_entries (o : Obj) : list (string * Qc) :=
  Array_sort index_before (filter (λ e, is_Some (array_index e.1)) o)
  ++ filter (λ e, ¬ is_Some (array_index e.1)) o.

(** [arr.indexOf(x)]: the first position of [x], or [-1]. *)
Fixpoint indexOf_from (i : Z) (arr : list string) (x : string) : Z :=
  match arr with
  | [] => -1
  | y :: arr' => if decide (y = x) then i else indexOf_from (i + 1) arr' x
  end.

Definition indexOf (arr : list string) (x : string) : Z := indexOf_from 0 arr x.

(** ** Scope filter and stats *)

Definition in_scope (geography : MSACategory) (sector : string) (d : DataRow) : bool :=
  (bool_decide (geography = All) || bool_decide (msa_category d = MSA_str geography))
  && bool_decide (NAICS2_NAME d = sector).

Definition filteredByScope
    (rawData : list DataRow) (geography : MSACategory) (sector : string) : list DataRow :=
  List.filter (in_scope geography sector) rawData.

Record Stats := mkStats { total : Qc; lw : Qc; ue : Qc; st : Qc }.

(** The four running sums of the [forEach], each exact. *)
Definition stats (filtered : list DataRow) : Stats :=
  fold_left
    (λ s d,
      {| total := (total s + n_weighted d)%Qc;
         lw := (lw s + n_weighted_low_wage d)%Qc;
         ue := (ue s + n_weighted_underemployed d)%Qc;
         st := (st s + n_weighted_stalled d)%Qc |})
    filtered
    {| total := 0%Qc; lw := 0%Qc; ue := 0%Qc; st := 0%Qc |}.

(** ** Cohort breakdowns *)

Definition cohortWeight (selectedCohort : CohortType) (d : DataRow) : Qc :=
  match selectedCohort with
  | LowWage => n_weighted_low_wage d
  | Underemployed => n_weighted_underemployed d
  | Stalled => n_weighted_stalled d
  | AllStranded =>
      (n_weighted_low_wage d + n_weighted_underemployed d + n_weighted_stalled d)%Qc
  end.

Record Tables := mkTables { t_edu : Obj; t_age : Obj; t_occ : Obj }.

Definition tally (selectedCohort : CohortType) (t : Tables) (d : DataRow) : Tables :=
  let weight := cohortWeight selectedCohort d in
  {| t_edu := accumulate (t_edu t) (education_level_label d) weight;
     t_age := accumulate (t_age t) (age_group d) weight;
     t_occ := accumulate (t_occ t) (soc_2019_5_acs_name d) weight |}.

Definition tables (filtered : list DataRow) (selectedCohort : CohortType) : Tables :=
  fold_left (tally selectedCohort) filtered {| t_edu := []; t_age := []; t_occ := [] |}.

Definition by_order (order : list string) (a b : string * Qc) : bool :=
  bool_decide (indexOf order a.1 - indexOf order b.1 ≤ 0).

Definition by_weight_desc (a b : string * Qc) : bool :=
  bool_decide (b.2 - a.2 ≤ 0)%Qc.

Record Breakdowns := mkBreakdowns {
  edu : list (string * Qc);
  age : list (string * Qc);
  occ : list (string * Qc)
}.

Definition cohortBreakdowns
    (filtered : list DataRow) (selectedCohort : CohortType) : Breakdowns :=
  let t := tables filtered selectedCohort in
  {| edu := Array_sort (by_order EDUCATION_ORDER) (Object_entries (t_edu t));
     age := Array_sort (by_order AGE_GROUPS) (Object_entries (t_age t));
     occ := List.filter (λ e, bool_decide (0 < e.2)%Qc)
              (Array_sort by_weight_desc (Object_entries (t_occ t))) |}.


(** ** Profile classifier *)

(** [l.reduce((sum, [, val]) => sum + val, 0)], the sum exact. *)
Definition sum_vals (l : list (string * Qc)) : Qc :=
  fold_left (λ sum e, (sum + e.2)%Qc) l 0%Qc.

Definition totalCohort (b : Breakdowns) : Qc := sum_vals (edu b).

Definition youngCount (b : Breakdowns) : Qc :=
  sum_vals
    (List.filter (λ e, bool_decide (e.1 = "18-24") || bool_decide (e.1 = "25-34")) (age b)).

Definition matureCount (b : Breakdowns) : Qc :=
  sum_vals
    (List.filter (λ e, bool_decide (e.1 = "45-54") || bool_decide (e.1 = "55-64")) (age b)).

(** The quotients [youngCount / totalCohort] and [matureCount / totalCohort]. *)
Definition youngShare (b : Breakdowns) : jsnum := jsdiv (youngCount b) (totalCohort b).
Definition matureShare (b : Breakdowns) : jsnum := jsdiv (matureCount b) (totalCohort b).

Definition isYoungCohort (b : Breakdowns) : bool := jsgt (youngShare b) (Q2Qc (1 # 2)).
Definition isMatureCohort (b : Breakdowns) : bool := jsgt (matureShare b) (Q2Qc (1 # 2)).

Definition lowEduCount (b : Breakdowns) : Qc :=
  sum_vals
    (List.filter
       (λ e, bool_decide (e.1 = "Less than HS") || bool_decide (e.1 = "HS diploma/GED"))
       (edu b)).

Definition highEduCount (b : Breakdowns) : Qc :=
  sum_vals
    (List.filter
       (λ e, bool_decide (e.1 = "Bachelor's degree") || bool_decide (e.1 = "Graduate degree"))
       (edu b)).

(** [edu.find(([label]) => label === 'Some college')?.[1] || 0] *)
Definition someCollegeCount (b : Breakdowns) : Qc :=
  or0 (snd <$> List.find (λ e, bool_decide (e.1 = "Some college")) (edu b)).

(** The quotients [lowEduCount / totalCohort], [highEduCount / totalCohort]
    and [someCollegeCount / totalCohort]. *)
Definition lowEducationShare (b : Breakdowns) : jsnum :=
  jsdiv (lowEduCount b) (totalCohort b).
Definition highEducationShare (b : Breakdowns) : jsnum :=
  jsdiv (highEduCount b) (totalCohort b).
Definition someCollegeShare (b : Breakdowns) : jsnum :=
  jsdiv (someCollegeCount b) (totalCohort b).

Definition isLowEducation (b : Breakdowns) : bool :=
  jsgt (lowEducationShare b) (Q2Qc (3 # 5)).
Definition isHighEducation (b : Breakdowns) : bool :=
  jsgt (highEducationShare b) (Q2Qc (2 # 5)).
Definition hasSomeCollege (b : Breakdowns) : bool :=
  jsgt (someCollegeShare b) (Q2Qc (3 # 20)).

(** [s.includes(sub)] *)
Fixpoint includes (s sub : string) : bool :=
  String.prefix sub s
  || match s with
     | EmptyString => false
     | String _ s' => includes s' sub
     end.

Definition isManufacturing (sector : string) : bool := includes sector "Manufacturing".
Definition isHealthcare (sector : string) : bool := includes sector "Health".
Definition isRetail (sector : string) : bool :=
  includes sector "Retail" || includes sector "Food".
Definition isConstruction (sector : string) : bool := includes sector "Construction".
Definition isProfessional (sector : string) : bool :=
  includes sector "Professional" || includes sector "Finance"
  || includes sector "Information".
Definition isEducation (sector : string) : bool := includes sector "Educational".

(** ** Recommendation composer *)

Record Rec := mkRec { title : string; advice : string }.

#[global] Instance Rec_eq_dec : EqDecision Rec.
Proof. solve_decision. Defined.

(** [`${x}`] for a nullable string. *)
Definition String_of (x : option string) : string :=
  match x with
  | Some s => s
  | None => "null"
  end.

(** [`${n}`] for an integral number; beyond 1e21 the language switches to
    exponent notation, the digits are spelled out here. *)
Definition Number_toString (x : jsnum) : string :=
  match x with
  | Fin q => pretty (Qfloor q)
  | NaN => "NaN"
  | PosInf => "Infinity"
  | NegInf => "-Infinity"
  end.

Definition entrepreneurshipOccupations : list string :=
  [ "Carpenters"; "Electricians"; "Plumbers"; "HVAC"; "Hair"; "Cosmetologists";
    "Photographers"; "Designers"; "Drivers"; "Mechanics"; "Repair" ].

(** [(targetOccupation || '')] *)
Definition or_empty (x : option string) : string :=
  match x with
  | Some s => s
  | None => ""
  end.

Definition isEntrepreneurshipViable (targetOccupation : option string) : bool :=
  existsb (λ o, includes (or_empty targetOccupation) o) entrepreneurshipOccupations.

(** [arr.push(x)] *)
Definition push {A} (arr : list A) (x : A) : list A := arr ++ [x].

Section recommendations.
Variables (geography : MSACategory) (sector : string)
          (selectedCohort : CohortType) (targetOccupation : option string)
          (b : Breakdowns).

(** [geography === 'All' ? alt : geography] *)
Definition geo_or (alt : string) : string :=
  if decide (geography = All) then alt else MSA_str geography.

(** [Math.round(count / totalCohort * 100)], interpolated *)
Definition pct (count : Qc) : string :=
  Number_toString (Math_round (jsmul_pos (jsdiv count (totalCohort b)) (qz 100))).

Definition rec_youth : Rec :=
  {| title := "Strategy: Youth Apprenticeship & Pre-Apprenticeship Programs";
     advice := String.concat ""
    [ "With over half of ";
      String_of targetOccupation;
      "s in ";
      geo_or "Tennessee";
      " under age 35, registered apprenticeship programs offer a proven pathway. Partner with ";
      sector;
      " employers to create earn-while-you-learn pathways that combine on-the-job training with classroom instruction. Tennessee Reconnect and Drive to 55 initiatives provide tuition support for participants under 25, enabling credential attainment while earning competitive wages." ] |}.

Definition rec_midcareer : Rec :=
  {| title := "Strategy: Mid-Career Upskilling & Re-Credentialing";
     advice := String.concat ""
    [ "Many ";
      String_of targetOccupation;
      "s in this cohort (45+) have extensive work experience but lack formal credentials. Implement Prior Learning Assessment (PLA) programs that award college credit for work experience, combined with accelerated competency-based education to fast-track credential completion. Tennessee Reconnect offers tuition-free community college for adults, making this financially viable." ] |}.

Definition rec_advancement : Rec :=
  {| title := "Strategy: Career Advancement Pathways";
     advice := String.concat ""
    [ "Focus on creating clear advancement pathways for mid-career ";
      String_of targetOccupation;
      "s in ";
      sector;
      ". Develop stackable credentials that allow workers to incrementally build skills while remaining employed. Partner with employers to create internal promotion pathways that recognize credential attainment with wage increases." ] |}.

Definition rec_foundational : Rec :=
  {| title := "Strategy: Foundational Skills & Industry-Recognized Credentials";
     advice := String.concat ""
    [ "With ";
      pct (lowEduCount b);
      "% of ";
      String_of targetOccupation;
      "s having a high school diploma or less, prioritize short-term, industry-recognized credentials that lead directly to employment. Focus on OSHA certifications, forklift operation, CDL training, and other credentials that have immediate labor market value in ";
      geo_or "Tennessee";
      "'s ";
      sector;
      " sector. Integrate adult basic education for those needing GED completion." ] |}.

Definition rec_advanced : Rec :=
  {| title := "Strategy: Advanced Credential Stacking & Management Pathways";
     advice := String.concat ""
    [ "With ";
      pct (highEduCount b);
      "% holding bachelor's degrees or higher, focus on management training, Six Sigma Black Belt certification, and professional certifications (PMP, SHRM-CP) that position ";
      String_of targetOccupation;
      "s for supervisory roles. For ";
      Cohort_str selectedCohort;
      " workers with degrees, the barrier is often lack of management experience or industry-specific advanced credentials rather than education." ] |}.

Definition rec_flexible : Rec :=
  {| title := "Strategy: Flexible Postsecondary Completion & Certificate Programs";
     advice := String.concat ""
    [ "Support ";
      String_of targetOccupation;
      "s in completing associate degrees or industry certificates through flexible delivery models (evening, weekend, online). Tennessee Colleges of Applied Technology (TCATs) offer accelerated programs aligned to ";
      sector;
      " industry needs with job placement rates exceeding 85%. Emphasize stackable credentials that provide immediate wage gains while progressing toward degree completion." ] |}.

Definition rec_manufacturing : Rec :=
  {| title := "Strategy: Advanced Manufacturing Skills & Automation Training";
     advice := String.concat ""
    [ "Tennessee's ";
      geo_or "statewide";
      " manufacturing sector increasingly requires CNC machining, robotics maintenance, and industrial automation skills. Target ";
      String_of targetOccupation;
      "s for training in FANUC robotics certification, Siemens mechatronics, and Industry 4.0 competencies. Partner with manufacturers to create cohort-based training that guarantees job placement upon completion with $5-8/hour wage premiums." ] |}.

Definition rec_healthcare : Rec :=
  {| title := "Strategy: Healthcare Career Ladders & Clinical Certifications";
     advice := String.concat ""
    [ "Create healthcare career pathways for ";
      String_of targetOccupation;
      "s moving from entry-level to clinical roles. Support CNA-to-LPN and LPN-to-RN bridge programs, or lateral moves into medical coding, pharmacy tech, or surgical tech roles. Tennessee's healthcare sector projects 15% growth through 2030, with median wages 40% higher than current ";
      Cohort_str selectedCohort;
      " workers in ";
      geo_or "the state";
      "." ] |}.

Definition rec_retail : Rec :=
  {| title := "Strategy: Digital Commerce & Customer Experience Specialization";
     advice := String.concat ""
    [ "Retail and food service workers have transferable customer service skills valued in many sectors. Support ";
      String_of targetOccupation;
      "s in transitioning to higher-wage roles in sales operations, e-commerce logistics, customer success management, or hospitality management. Micro-credentials in Salesforce, digital marketing, and supply chain coordination can unlock 30-50% wage increases." ] |}.

Definition rec_construction : Rec :=
  {| title := "Strategy: Skilled Trades Credentialing & Supervisory Development";
     advice := String.concat ""
    [ "Construction offers clear pathways from apprentice to journeyman to master craftsperson. Support ";
      String_of targetOccupation;
      "s in obtaining electrical, plumbing, or HVAC licensure through Tennessee's registered apprenticeship programs. For experienced workers, focus on supervisor/foreman training, OSHA 30-hour, and project management fundamentals that lead to superintendent roles with 50%+ wage premiums." ] |}.

Definition rec_professional : Rec :=
  {| title := "Strategy: Technology Upskilling & Professional Certification";
     advice := String.concat ""
    [ "Professional services increasingly require digital literacy and technical specializations. Target ";
      String_of targetOccupation;
      "s for training in data analytics (SQL, Tableau, Power BI), cloud platforms (AWS, Azure), project management (PMP, Agile), or specialized software relevant to ";
      sector;
      ". These credentials can unlock remote work opportunities and salary increases of 25-40% in ";
      geo_or "Tennessee";
      "." ] |}.

Definition rec_education : Rec :=
  {| title := "Strategy: Educational Support Professional Development";
     advice := String.concat ""
    [ "Support ";
      String_of targetOccupation;
      "s in advancing from paraprofessional to licensed teacher roles through Tennessee's Grow Your Own teacher programs. Alternative licensure pathways and tuition assistance for bachelor's degree completion can transition classroom aides, substitute teachers, and support staff into full teaching positions with median salaries exceeding $52,000 in ";
      geo_or "Tennessee";
      "." ] |}.

Definition rec_cross_sector : Rec :=
  {| title := "Strategy: Cross-Sector Skills Transfer & Industry Switching";
     advice := String.concat ""
    [ "Identify transferable skills of ";
      String_of targetOccupation;
      "s that are valued in higher-wage sectors. For example, operations roles transfer to logistics management, customer service transfers to healthcare patient experience, and administrative skills transfer to professional services. Provide career navigation support to help workers identify viable transitions with minimal retraining." ] |}.

Definition rec_college : Rec :=
  {| title := "Strategy: College Completion & Credit for Prior Learning";
     advice := String.concat ""
    [ pct (someCollegeCount b);
      "% of ";
      String_of targetOccupation;
      "s in ";
      geo_or "Tennessee";
      " have some college but no degree. Implement Tennessee Reconnect re-enrollment initiatives, reverse transfer programs that award associate degrees for accumulated credits, and Prior Learning Assessment to accelerate completion. Workers with associate degrees earn 20% more than those with some college; bachelor's degrees provide 65% wage premiums." ] |}.

Definition rec_internal : Rec :=
  {| title := "Strategy: Employer-Led Internal Mobility Systems";
     advice := String.concat ""
    [ "Work with ";
      sector;
      " employers in ";
      geo_or "Tennessee";
      " to develop transparent internal career pathways for ";
      String_of targetOccupation;
      "s. Implement skills-based progression frameworks where workers can advance through documented skill attainment rather than degree requirements. Successful models include tuition assistance (up to $5,250/year tax-free), paid time for training, and guaranteed wage increases upon credential completion." ] |}.

Definition rec_self_employment : Rec :=
  {| title := "Strategy: Self-Employment & Microbusiness Development";
     advice := String.concat ""
    [ "Many ";
      String_of targetOccupation;
      "s have skills suited for independent contracting or small business ownership. Provide access to Tennessee Small Business Development Centers (TSBDC) for business planning, SCORE mentoring, and microfinance through community lenders. Self-employed skilled workers in ";
      sector;
      " can earn 20-50% more than W-2 employees, with greater schedule flexibility. Support LLC formation, insurance procurement, and digital marketing training." ] |}.
Definition recommendations : list Rec :=
  let recs := [] in
  let recs :=
    if isYoungCohort b then push recs rec_youth
    else if isMatureCohort b then push recs rec_midcareer
    else push recs rec_advancement in
  let recs :=
    if isLowEducation b then push recs rec_foundational
    else if isHighEducation b then push recs rec_advanced
    else push recs rec_flexible in
  let recs :=
    if isManufacturing sector then push recs rec_manufacturing
    else if isHealthcare sector then push recs rec_healthcare
    else if isRetail sector then push recs rec_retail
    else if isConstruction sector then push recs rec_construction
    else if isProfessional sector then push recs rec_professional
    else if isEducation sector then push recs rec_education
    else push recs rec_cross_sector in
  let recs := if hasSomeCollege b then push recs rec_college else recs in
  let recs := push recs rec_internal in
  let recs :=
    if isEntrepreneurshipViable targetOccupation
    then push recs rec_self_employment else recs in
  recs.
End recommendations.

(** ** Dataset loader *)

(** A parsed CSV record: [None] is a missing cell. *)
Record RawRow := mkRaw {
  raw_msa_category : option string;
  raw_naics2_title : option string;
  raw_n_weighted : option Qc;
  raw_n_low_wage_weighted : option Qc;
  raw_n_underemployed_weighted : option Qc;
  raw_n_stranded_weighted : option Qc;
  raw_education_level_label : option string;
  raw_SOC_2019_5_ACS_NAME : option string;
  raw_age_group : option string
}.

(** [x || dflt] on a string cell: a missing cell and the empty string are falsy. *)
Definition or_str (x : option string) (dflt : string) : string :=
  match x with
  | Some s => if decide (s = "") then dflt else s
  | None => dflt
  end.

(** [results.data.map(row => ({ ... }))] *)
Definition mappedData (data : list RawRow) : list DataRow :=
  map
    (λ row,
      {| msa_category := or_str (raw_msa_category row) "";
         NAICS2_NAME := or_str (raw_naics2_title row) "Other";
         n_weighted := or0 (raw_n_weighted row);
         n_weighted_low_wage := or0 (raw_n_low_wage_weighted row);
         n_weighted_underemployed := or0 (raw_n_underemployed_weighted row);
         n_weighted_stalled := or0 (raw_n_stranded_weighted row);
         education_level_label := or_str (raw_education_level_label row) "Unknown";
         soc_2019_5_acs_name := or_str (raw_SOC_2019_5_ACS_NAME row) "Other";
         age_group := or_str (raw_age_group row) "" |})
    data.

(** ** The dashboard session *)

Record AppState := mkApp {
  geography : MSACategory;
  sector : string;
  selectedCohort : CohortType;
  targetOccupation : option string;
  expandedRec : option nat;
  rawData : list DataRow;
  isLoading : bool
}.

Definition initialState : AppState :=
  {| geography := All;
     sector := "Manufacturing";
     selectedCohort := AllStranded;
     targetOccupation := None;
     expandedRec := Some 0%nat;
     rawData := [];
     isLoading := true |}.

Definition scoped (s : AppState) : list DataRow :=
  filteredByScope (rawData s) (geography s) (sector s).

Definition breakdowns (s : AppState) : Breakdowns :=
  cohortBreakdowns (scoped s) (selectedCohort s).

Definition setGeography (g : MSACategory) (s : AppState) : AppState :=
  mkApp g (sector s) (selectedCohort s) (targetOccupation s) (expandedRec s)
        (rawData s) (isLoading s).
Definition setSector (x : string) (s : AppState) : AppState :=
  mkApp (geography s) x (selectedCohort s) (targetOccupation s) (expandedRec s)
        (rawData s) (isLoading s).
Definition setSelectedCohort (c : CohortType) (s : AppState) : AppState :=
  mkApp (geography s) (sector s) c (targetOccupation s) (expandedRec s)
        (rawData s) (isLoading s).
Definition setTargetOccupation (o : option string) (s : AppState) : AppState :=
  mkApp (geography s) (sector s) (selectedCohort s) o (expandedRec s)
        (rawData s) (isLoading s).
Definition setExpandedRec (i : option nat) (s : AppState) : AppState :=
  mkApp (geography s) (sector s) (selectedCohort s) (targetOccupation s) i
        (rawData s) (isLoading s).
Definition setRawData (data : list DataRow) (s : AppState) : AppState :=
  mkApp (geography s) (sector s) (selectedCohort s) (targetOccupation s)
        (expandedRec s) data (isLoading s).
Definition setIsLoading (l : bool) (s : AppState) : AppState :=
  mkApp (geography s) (sector s) (selectedCohort s) (targetOccupation s)
        (expandedRec s) (rawData s) l.

(** [!targetOccupation]: [null] and the empty string are falsy. *)
Definition falsy (x : option string) : bool :=
  match x with
  | Some s => bool_decide (s = "")
  | None => true
  end.

(** The effect that follows every render:
    [if (occ.length > 0 && !targetOccupation) setTargetOccupation(occ[0][0])]. *)
Definition autoPopulate (s : AppState) : AppState :=
  match occ (breakdowns s) with
  | top :: _ =>
      if falsy (targetOccupation s) then setTargetOccupation (Some top.1) s else s
  | [] => s
  end.

Inductive Event :=
  | DataLoaded (raw : list RawRow)
  | RegionClick (g : MSACategory)
  | SectorChange (x : string)
  | CohortClick (c : CohortType)
  | OccupationClick (i : nat)
  | RecClick (i : nat).

Definition handle (ev : Event) (s : AppState) : AppState :=
  match ev with
  | DataLoaded raw => setIsLoading false (setRawData (mappedData raw) s)
  | RegionClick g => setGeography g s
  | SectorChange x => setSector x s
  | CohortClick c => setSelectedCohort c s
  | OccupationClick i =>
      (* the i-th card of [cohortBreakdowns.occ.slice(0, 10)] *)
      match take 10 (occ (breakdowns s)) !! i with
      | Some card => setTargetOccupation (Some card.1) s
      | None => s
      end
  | RecClick i =>
      setExpandedRec (if decide (expandedRec s = Some i) then None else Some i) s
  end.

(** An event, from one settled state to the next: the handler, whose result
    [handle ev s] is the render committed first, then the effect that
    follows that render. *)
Definition step (s : AppState) (ev : Event) : AppState := autoPopulate (handle ev s).

Definition run (s : AppState) (evs : list Event) : AppState := fold_left step evs s.

(** The recommendation list and the scope panel of a render. *)
Definition view_recommendations (s : AppState) : list Rec :=
  recommendations (geography s) (sector s) (selectedCohort s) (targetOccupation s)
    (breakdowns s).

(** [(stats.lw / stats.total) * 100], the number under "Stranded Rate". *)
Definition strandedRate (s : Stats) : jsnum := jsmul_pos (jsdiv (lw s) (total s)) (qz 100).

(** [x.toFixed(0)]: the sign, then the nearest integer to the magnitude, the
    larger one at a tie; beyond 1e21 the language switches to exponent
    notation, the digits are spelled out here. *)
Definition toFixed0 (x : jsnum) : string :=
  match x with
  | Fin q =>
      if decide (q < 0)%Qc
      then String.append "-" (pretty (Qfloor (- q + Q2Qc (1 # 2))%Qc))
      else pretty (Qfloor (q + Q2Qc (1 # 2))%Qc)
  | NaN => "NaN"
  | PosInf => "Infinity"
  | NegInf => "-Infinity"
  end.

(** The text of the panel: [{((stats.lw / stats.total) * 100).toFixed(0)}%]. *)
Definition strandedRateText (s : Stats) : string :=
  String.append (toFixed0 (strandedRate s)) "%".


(** ** Sector options *)

(** [Array.from(new Set(arr))]: the first occurrence of each element, in order. *)
Definition Set_from (arr : list string) : list string :=
  fold_left (λ seen x, if decide (x ∈ seen) then seen else seen ++ [x]) arr [].

(** The default comparator of [sort()] on strings: ascending code units. *)
Definition by_code_units (a b : string) : bool := String.leb a b.

(** [s && s !== 'Other' && s !== 'NA'] *)
Definition selectable (s : string) : bool :=
  negb (bool_decide (s = "")) && negb (bool_decide (s = "Other"))
  && negb (bool_decide (s = "NA")).

Definition sectors (rawData : list DataRow) : list string :=
  Array_sort by_code_units
    (Set_from (List.filter selectable (map NAICS2_NAME rawData))).

(** ** Bars *)

(** [Math.max(...values)]; minus infinity without arguments. *)
Definition Math_max (values : list Qc) : jsnum :=
  fold_left
    (λ m v,
      match m with
      | Fin q => if decide (q < v)%Qc then Fin v else Fin q
      | NegInf => Fin v
      | other => other
      end)
    values NegInf.

(** [a / b] for a finite [a]. *)
Definition jsdiv_by (a : Qc) (b : jsnum) : jsnum :=
  match b with
  | Fin q => jsdiv a q
  | NaN => NaN
  | PosInf | NegInf => Fin 0%Qc
  end.

(** [max > 0 ? (value / max) * 100 : 0], the width in percent of a
    [ProgressBar] and of a bar of the report. *)
Definition barWidth (value : Qc) (max : jsnum) : jsnum :=
  if jsgt max 0%Qc then jsmul_pos (jsdiv_by value max) (qz 100) else Fin 0%Qc.

(** The widths of the bars drawn for a breakdown, each against
    [Math.max(...breakdown.map(x => x[1]))]. *)
Definition barWidths (breakdown : list (string * Qc)) : list jsnum :=
  map (λ e, barWidth e.2 (Math_max (map snd breakdown))) breakdown.

(** The four bars of "Occupations with Most Stranded Workers":
    [occ.slice(0, 4)], each against the maximum of the whole breakdown. *)
Definition topOccupationBars (b : Breakdowns) : list jsnum :=
  map (λ e, barWidth e.2 (Math_max (map snd (occ b)))) (take 4 (occ b)).

(** ** Target group profile *)

(** "Total Workers in Pool":
    [occ.find(d => d[0] === targetOccupation)?.[1] || 0]. *)
Definition poolSize (targetOccupation : option string) (b : Breakdowns) : Qc :=
  or0 (snd <$> List.find (λ d, bool_decide (Some d.1 = targetOccupation)) (occ b)).

(** ** Report numbering *)

(** [s.padStart(n, c)] for a one-character filler. *)
Definition padStart (s : string) (n : nat) (c : ascii) : string :=
  String.append (string_of_list_ascii (replicate (n - String.length s) c)) s.

(** [recommendations.map((r, i) => String(i + 1).padStart(2, '0'))], the
    numbers of the report's recommendation cards. *)
Definition reportNumbers (recs : list Rec) : list string :=
  imap (λ i _, padStart (pretty (Z.of_nat i + 1)) 2 "0"%char) recs.

(** ** The map component *)

Module TennesseeMap.

Inductive Region := Nashville | Memphis | Knoxville | Chattanooga | OtherMSA | Rural.

#[global] Instance Region_eq_dec : EqDecision Region.
Proof. solve_decision. Defined.

Definition Region_str (r : Region) : string :=
  match r with
  | Nashville => "Nashville"
  | Memphis => "Memphis"
  | Knoxville => "Knoxville"
  | Chattanooga => "Chattanooga"
  | OtherMSA => "Other MSA"
  | Rural => "Rural"
  end.

(** [selectedRegion : MSACategory | 'All'] *)
Inductive Selection := AllTennessee | Selected (r : Region).

#[global] Instance Selection_eq_dec : EqDecision Selection.
Proof. solve_decision. Defined.

Definition baseColors (region : Region) : string :=
  match region with
  | Nashville => "#F59E0B"
  | Memphis => "#8B5CF6"
  | Knoxville => "#10B981"
  | Chattanooga => "#EF4444"
  | OtherMSA => "#06B6D4"
  | Rural => "#94A3B8"
  end.

Definition getRegionColor
    (selectedRegion : Selection) (region : Region) (isSelected isHovered : bool) : string :=
  if decide (selectedRegion = AllTennessee) then "#1E3A8A"
  else if isSelected then "#1E3A8A"
  else if isHovered then "#93C5FD"
  else baseColors region.

(** The fill of a region in a render:
    [getRegionColor(region, selectedRegion === region, hoveredRegion === region)]. *)
Definition fill (selectedRegion : Selection) (hoveredRegion : option Region)
    (region : Region) : string :=
  getRegionColor selectedRegion region
    (bool_decide (selectedRegion = Selected region))
    (bool_decide (hoveredRegion = Some region)).

Definition regionOrder : list Region :=
  [Nashville; Memphis; Knoxville; Chattanooga; OtherMSA; Rural].

(** The county groups, keyed by region name in the order the object literal
    lists them. *)
Definition emptyGroups : list (string * list string) :=
  map (λ r, (Region_str r, [])) regionOrder.

(** [groups[k].push(x)]; [None] is the TypeError of pushing to [undefined]. *)
Fixpoint group_push (groups : list (string * list string)) (k x : string)
    : option (list (string * list string)) :=
  match groups with
  | [] => None
  | (k', xs) :: rest =>
      if decide (k' = k) then Some ((k', xs ++ [x]) :: rest)
      else (λ rest', (k', xs) :: rest') <$> group_push rest k x
  end.

(** [regionGroups] over the county names of the boundary file;
    [countyMapping] is the county-to-region table, [None] for a county it
    does not list. *)
Definition regionGroups (countyMapping : string → option string) (counties : list string)
    : option (list (string * list string)) :=
  foldl
    (λ groups countyName,
      groups ≫= λ g, group_push g (or_str (countyMapping countyName) "Rural") countyName)
    (Some emptyGroups) counties.

End TennesseeMap.

(** ** The aggregation over binary64 numbers *)

(** The lines of [filteredByScope], [stats], [cohortBreakdowns],
    [totalCohort] and the pool once more, with the numbers the language has:
    every weight is an IEEE 754 binary64 value and every [+] rounds to the
    nearest one, ties to even.  Labels, ordering tables and sorts are the
    ones above. *)
Module Binary64.
Import PrimFloat.

Record DataRow := mkRow {
  msa_category : string;
  NAICS2_NAME : string;
  n_weighted : float;
  n_weighted_low_wage : float;
  n_weighted_underemployed : float;
  n_weighted_stalled : float;
  education_level_label : string;
  soc_2019_5_acs_name : string;
  age_group : string
}.

Abbreviation Obj := (list (string * float)).

(** [o[k]]; [None] is [undefined]. *)
Fixpoint obj_get (o : Obj) (k : string) : option float :=
  match o with
  | [] => None
  | (k', v) :: o' => if decide (k' = k) then Some v else obj_get o' k
  end.

(** [o[k] = v]: an existing property keeps its place, a new one is appended. *)
Fixpoint obj_set (o : Obj) (k : string) (v : float) : Obj :=
  match o with
  | [] => [(k, v)]
  | (k', v') :: o' =>
      if decide (k' = k) then (k', v) :: o' else (k', v') :: obj_set o' k v
  end.

(** [x || 0]: [undefined], the two zeros and [NaN] are the falsy cases. *)
Definition or0 (x : option float) : float :=
  match x with
  | Some v => if (v =? 0)%float || is_nan v then 0%float else v
  | None => 0%float
  end.

(** [o[k] = (o[k] || 0) + w] *)
Definition accumulate (o : Obj) (k : string) (w : float) : Obj :=
  obj_set o k (or0 (obj_get o k) + w)%float.

Definition index_before (a b : string * float) : bool :=
  match array_index a.1, array_index b.1 with
  | Some i, Some j => bool_decide (i ≤ j)%N
  | _, _ => true
  end.

(** [Object.entries(o)] *)
Definition Object_entries (o : Obj) : list (string * float) :=
  Array_sort index_before (filter (λ e, is_Some (array_index e.1)) o)
  ++ filter (λ e, ¬ is_Some (array_index e.1)) o.

Definition in_scope (geography : MSACategory) (sector : string) (d : DataRow) : bool :=
  (bool_decide (geography = All) || bool_decide (msa_category d = MSA_str geography))
  && bool_decide (NAICS2_NAME d = sector).

Definition filteredByScope
    (rawData : list DataRow) (geography : MSACategory) (sector : string) : list DataRow :=
  List.filter (in_scope geography sector) rawData.

Record Stats := mkStats { total : float; lw : float; ue : float; st : float }.

Definition stats (filtered : list DataRow) : Stats :=
  fold_left
    (λ s d,
      {| total := (total s + n_weighted d)%float;
         lw := (lw s + n_weighted_low_wage d)%float;
         ue := (ue s + n_weighted_underemployed d)%float;
         st := (st s + n_weighted_stalled d)%float |})
    filtered
    {| total := 0%float; lw := 0%float; ue := 0%float; st := 0%float |}.

Definition cohortWeight (selectedCohort : CohortType) (d : DataRow) : float :=
  match selectedCohort with
  | LowWage => n_weighted_low_wage d
  | Underemployed => n_weighted_underemployed d
  | Stalled => n_weighted_stalled d
  | AllStranded =>
      (n_weighted_low_wage d + n_weighted_underemployed d + n_weighted_stalled d)%float
  end.

Record Tables := mkTables { t_edu : Obj; t_age : Obj; t_occ : Obj }.

Definition tally (selectedCohort : CohortType) (t : Tables) (d : DataRow) : Tables :=
  let weight := cohortWeight selectedCohort d in
  {| t_edu := accumulate (t_edu t) (education_level_label d) weight;
     t_age := accumulate (t_age t) (age_group d) weight;
     t_occ := accumulate (t_occ t) (soc_2019_5_acs_name d) weight |}.

Definition tables (filtered : list DataRow) (selectedCohort : CohortType) : Tables :=
  fold_left (tally selectedCohort) filtered {| t_edu := []; t_age := []; t_occ := [] |}.

Definition by_order (order : list string) (a b : string * float) : bool :=
  bool_decide (indexOf order a.1 - indexOf order b.1 ≤ 0).

(** [b[1] - a[1]] is not positive; the sort reads a [NaN] as 0. *)
Definition by_weight_desc (a b : string * float) : bool :=
  negb (0 <? b.2 - a.2)%float.

Record Breakdowns := mkBreakdowns {
  edu : list (string * float);
  age : list (string * float);
  occ : list (string * float)
}.

Definition cohortBreakdowns
    (filtered : list DataRow) (selectedCohort : CohortType) : Breakdowns :=
  let t := tables filtered selectedCohort in
  {| edu := Array_sort (by_order EDUCATION_ORDER) (Object_entries (t_edu t));
     age := Array_sort (by_order AGE_GROUPS) (Object_entries (t_age t));
     occ := List.filter (λ e, (0 <? e.2)%float)
              (Array_sort by_weight_desc (Object_entries (t_occ t))) |}.

(** [l.reduce((sum, [, val]) => sum + val, 0)] *)
Definition sum_vals (l : list (string * float)) : float :=
  fold_left (λ sum e, (sum + e.2)%float) l 0%float.

Definition totalCohort (b : Breakdowns) : float := sum_vals (edu b).

(** "Total Workers in Pool":
    [occ.find(d => d[0] === targetOccupation)?.[1] || 0]. *)
Definition poolSize (targetOccupation : option string) (b : Breakdowns) : float :=
  or0 (snd <$> List.find (λ d, bool_decide (Some d.1 = targetOccupation)) (occ b)).

(** The data-model invariant on a row: every weight is a non-negative number. *)
Definition nonneg_weights (d : DataRow) : bool :=
  (0 <=? n_weighted d)%float && (0 <=? n_weighted_low_wage d)%float
  && (0 <=? n_weighted_underemployed d)%float && (0 <=? n_weighted_stalled d)%float.

(** Three rows of one occupation with low-wage weights 0.1, 0.2 and 0.3: the
    first two share the education level, the last two the age group and the
    region. *)
Definition rowTenth : DataRow :=
  mkRow "Memphis" "Manufacturing" 1 0.1 0 0 "HS diploma/GED" "Machinist" "18-24".

Definition rowFifth : DataRow :=
  mkRow "Nashville" "Manufacturing" 1 0.2 0 0 "HS diploma/GED" "Machinist" "25-34".

Definition rowThreeTenths : DataRow :=
  mkRow "Nashville" "Manufacturing" 1 0.3 0 0 "Some college" "Machinist" "25-34".

Definition tenths : list DataRow := [rowTenth; rowFifth; rowThreeTenths].

(** Three welders with low-wage weights 0.1, 0.1 and 0.4, the first and the
    last without a high-school diploma. *)
Definition welders : list DataRow :=
  [ mkRow "Nashville" "Manufacturing" 1 0.1 0 0 "Less than HS" "Welder" "25-34";
    mkRow "Nashville" "Manufacturing" 1 0.1 0 0 "HS diploma/GED" "Welder" "25-34";
    mkRow "Nashville" "Manufacturing" 1 0.4 0 0 "Less than HS" "Welder" "25-34" ].

End Binary64.

(** * Vocabulary of the properties *)

(** ** Sums over tables and rows *)

(** The sum of the values of a table, independent of the order of its entries. *)
Definition total_of (l : list (string * Qc)) : Qc :=
  foldr (λ e acc, (e.2 + acc)%Qc) 0%Qc l.

(** The loop of [cohortBreakdowns] restricted to one table, keyed by [key]. *)
Definition tally_by (key : DataRow → string) (c : CohortType) (o : Obj) (d : DataRow) : Obj :=
  accumulate o (key d) (cohortWeight c d).

(** The cohort weight of all rows together. *)
Definition weight_sum (c : CohortType) (rows : list DataRow) : Qc :=
  foldr (λ d acc, (cohortWeight c d + acc)%Qc) 0%Qc rows.

(** What the rows carrying label [k] weigh together. *)
Definition label_sum
    (key : DataRow → string) (c : CohortType) (rows : list DataRow) (k : string) : Qc :=
  foldr (λ d acc, if decide (key d = k) then (cohortWeight c d + acc)%Qc else acc)
        0%Qc rows.

Definition sum_by (f : DataRow → Qc) (rows : list DataRow) : Qc :=
  foldr (λ d acc, (f d + acc)%Qc) 0%Qc rows.

(** The data-model invariant on a row: every weight is non-negative. *)
Definition nonneg_weights (d : DataRow) : Prop :=
  (0 ≤ n_weighted d)%Qc ∧ (0 ≤ n_weighted_low_wage d)%Qc
  ∧ (0 ≤ n_weighted_underemployed d)%Qc ∧ (0 ≤ n_weighted_stalled d)%Qc.

(** ** Orders *)

Definition heavier_first (a b : string * Qc) : Prop := (b.2 ≤ a.2)%Qc.

Definition index_le (order : list string) (a b : string * Qc) : Prop :=
  indexOf order a.1 ≤ indexOf order b.1.

(** The reading of "sort last" and of its opposite on a sorted breakdown. *)
Definition unmapped_last (order : list string) (l : list (string * Qc)) : Prop :=
  ∀ (i j : nat) a b,
    l !! i = Some a → l !! j = Some b → a.1 ∈ order → b.1 ∉ order → (i < j)%nat.

Definition unmapped_first (order : list string) (l : list (string * Qc)) : Prop :=
  ∀ (i j : nat) a b,
    l !! i = Some a → l !! j = Some b → a.1 ∈ order → b.1 ∉ order → (j < i)%nat.

(** ** The high-education share as the specification words it *)

Definition two_highest (order : list string) : list string :=
  drop (List.length order - 2)%nat order.

Definition spec_highEduCount (b : Breakdowns) : Qc :=
  sum_vals (List.filter (λ e, bool_decide (e.1 ∈ two_highest EDUCATION_ORDER)) (edu b)).

Definition spec_highEducationShare (b : Breakdowns) : jsnum :=
  jsdiv (spec_highEduCount b) (totalCohort b).

(** ** Recommendations *)

(** [s] contains [sub]: some text, then [sub], then some text. *)
Definition contains (s sub : string) : Prop :=
  ∃ pre post : string, s = String.append pre (String.append sub post).

(** The three branch sets of the composer. *)
Definition age_strategy
    (g : MSACategory) (sec : string) (target : option string) (b : Breakdowns) : Rec :=
  if isYoungCohort b then rec_youth g sec target
  else if isMatureCohort b then rec_midcareer target
  else rec_advancement sec target.

Definition education_strategy
    (g : MSACategory) (sec : string) (c : CohortType) (target : option string)
    (b : Breakdowns) : Rec :=
  if isLowEducation b then rec_foundational g sec target b
  else if isHighEducation b then rec_advanced c target b
  else rec_flexible sec target.

Definition sector_strategy
    (g : MSACategory) (sec : string) (c : CohortType) (target : option string) : Rec :=
  if isManufacturing sec then rec_manufacturing g target
  else if isHealthcare sec then rec_healthcare g c target
  else if isRetail sec then rec_retail target
  else if isConstruction sec then rec_construction target
  else if isProfessional sec then rec_professional g sec target
  else if isEducation sec then rec_education g target
  else rec_cross_sector target.

(** ** Sessions *)

(** The loader leaves no row without an occupation label. *)
Definition labelled (rows : list DataRow) : Prop :=
  Forall (λ d, soc_2019_5_acs_name d ≠ "") rows.

(** What every render of a session satisfies: the rows come from the loader,
    and the target occupation is [null] or a non-empty label. *)
Definition session_ok (s : AppState) : Prop :=
  labelled (rawData s)
  ∧ ∀ o, targetOccupation s = Some o → o ≠ "".

(** The states a session settles in: the initial one, and the one every
    event leads to once its handler and the effect have both run. *)
Inductive reachable : AppState → Prop :=
  | reachable_init : reachable initialState
  | reachable_step s ev : reachable s → reachable (step s ev).

(** A change of geography, sector or cohort. *)
Definition selection_change (ev : Event) : bool :=
  match ev with
  | RegionClick _ | SectorChange _ | CohortClick _ => true
  | _ => false
  end.

(** ** Regions *)

(** The six regions of the map, the wildcard apart. *)
Definition regions : list MSACategory :=
  [Nashville; Memphis; Knoxville; Chattanooga; OtherMSA; Rural].

Definition stats_plus (a b : Stats) : Stats :=
  mkStats (total a + total b)%Qc (lw a + lw b)%Qc (ue a + ue b)%Qc (st a + st b)%Qc.

(** The six regional scopes of a sector, one after the other. *)
Definition regional_scopes (rows : list DataRow) (sec : string) : list DataRow :=
  foldr (λ g acc, filteredByScope rows g sec ++ acc) [] regions.

(** The stats of the six regional scopes of a sector, added up. *)
Definition regional_stats (rows : list DataRow) (sec : string) : Stats :=
  foldr (λ g acc, stats_plus (stats (filteredByScope rows g sec)) acc)
        (mkStats 0%Qc 0%Qc 0%Qc 0%Qc) regions.

(** ** Bars *)

(** A finite width between 0 and 100. *)
Definition percent (w : jsnum) : Prop := ∃ q, w = Fin q ∧ (0 ≤ q ≤ qz 100)%Qc.

(** What a session keeps once the dataset [data] has arrived. *)
Definition loaded_with (data : list DataRow) (s : AppState) : Prop :=
  rawData s = data ∧ isLoading s = false
  ∧ ∀ o, targetOccupation s = Some o → o ∈ map soc_2019_5_acs_name data.

(** An event of the user: anything but the arrival of the dataset. *)
Definition user_event (ev : Event) : bool :=
  match ev with
  | DataLoaded _ => false
  | _ => true
  end.

(** ** The map component *)

(** The county groups in which region [r] holds the counties [acc r]. *)
Definition groups_of (acc : TennesseeMap.Region → list string) : list (string * list string) :=
  map (λ r, (TennesseeMap.Region_str r, acc r)) TennesseeMap.regionOrder.

(** The region name a county is filed under: ['Rural'] when the table does
    not list it. *)
Definition county_category (countyMapping : string → option string) (name : string) : string :=
  or_str (countyMapping name) "Rural".

(** A county-to-region table for the examples. *)
Definition demoMapping (name : string) : option string :=
  if decide (name = "Davidson") then Some "Nashville"
  else if decide (name = "Shelby") then Some "Memphis"
  else if decide (name = "Knox") then Some "Knoxville"
  else None.

(** ** Sample data *)

Definition rowNashville : DataRow :=
  mkRow "Nashville" "Manufacturing" (qz 500) (qz 100) (qz 50) (qz 30)
        "HS diploma/GED" "Machinist" "25-34".

Definition rowMemphis : DataRow :=
  mkRow "Memphis" "Manufacturing" (qz 900) (qz 200) (qz 80) (qz 40)
        "Some college" "Welder" "35-44".

(** [rowNashville] with no underemployed and no stalled workers. *)
Definition rowNashvilleIdle : DataRow :=
  mkRow "Nashville" "Manufacturing" (qz 500) (qz 100) (qz 0) (qz 0)
        "HS diploma/GED" "Machinist" "25-34".

(** A row whose education and age labels are in neither ordering table. *)
Definition rowUnknown : DataRow :=
  mkRow "Nashville" "Manufacturing" (qz 40) (qz 7) (qz 2) (qz 1)
        "Unknown" "Machinist" "65+".

Definition rowMasters : DataRow :=
  mkRow "Nashville" "Manufacturing" (qz 50) (qz 10) (qz 0) (qz 0)
        "Master's degree" "Machinist" "35-44".

(** A row without low-wage workers. *)
Definition rowIdle : DataRow :=
  mkRow "Nashville" "Manufacturing" (qz 50) (qz 0) (qz 4) (qz 4)
        "Some college" "Machinist" "18-24".

(** Two rows whose low-wage weights cancel. *)
Definition rowGain : DataRow :=
  mkRow "Nashville" "Manufacturing" (qz 50) (qz 5) (qz 0) (qz 0)
        "HS diploma/GED" "Machinist" "18-24".

Definition rowLoss : DataRow :=
  mkRow "Nashville" "Manufacturing" (qz 50) (qz (-5)) (qz 0) (qz 0)
        "HS diploma/GED" "Machinist" "45-54".

Definition rowRetail : DataRow :=
  mkRow "Memphis" "Retail Trade" (qz 300) (qz 120) (qz 30) (qz 20)
        "HS diploma/GED" "Cashier" "18-24".

(** A row as the loader leaves it when the record names no sector. *)
Definition rowUnlabelled : DataRow :=
  mkRow "Memphis" "Other" (qz 10) (qz 4) (qz 1) (qz 1)
        "Unknown" "Other" "".

Definition demoRaw : list RawRow :=
  [ mkRaw (Some "Nashville") (Some "Manufacturing") (Some (qz 500)) (Some (qz 100))
          (Some (qz 50)) (Some (qz 30)) (Some "HS diploma/GED") (Some "Machinist")
          (Some "25-34");
    mkRaw (Some "Memphis") (Some "Manufacturing") (Some (qz 900)) (Some (qz 200))
          (Some (qz 80)) (Some (qz 40)) (Some "Some college") (Some "Welder")
          (Some "35-44") ].

Definition demoLoaded : AppState := run initialState [DataLoaded demoRaw].

(** * Properties *)

(** ** Rational arithmetic *)

Lemma Qc_sub_le0 (x y : Qc) : (x - y ≤ 0)%Qc ↔ (x ≤ y)%Qc.
Proof.
  rewrite (Qcplus_le_mono_r (x - y) 0 y).
  replace (x - y + y)%Qc with x by ring.
  by rewrite Qcplus_0_l.
Qed.

Lemma Qc_sum_zero (x y : Qc) : (0 ≤ x)%Qc → (0 ≤ y)%Qc → (x + y = 0)%Qc → x = 0%Qc ∧ y = 0%Qc.
Proof.
  intros Hx Hy Hxy.
  assert (x ≤ 0)%Qc as Hx0.
  { rewrite <-Hxy. rewrite <-(Qcplus_0_r x) at 1. by apply Qcplus_le_mono_l. }
  assert (x = 0%Qc) as -> by (by apply (anti_symm Qcle)).
  split; [done|]. by rewrite Qcplus_0_l in Hxy.
Qed.

(** ** The stable sort *)

Lemma sort_insert_perm {A} (f : A → A → bool) x l : sort_insert f x l ≡ₚ x :: l.
Proof.
  induction l as [|y l IH]; simpl; [done|].
  destruct (f x y); [done|]. rewrite IH. apply Permutation_swap.
Qed.

Lemma Array_sort_perm {A} (f : A → A → bool) (l : list A) : Array_sort f l ≡ₚ l.
Proof.
  induction l as [|x l IH]; simpl; [done|].
  by rewrite sort_insert_perm, IH.
Qed.

Section sort_facts.
Context {A : Type} (goes_first : A → A → bool) (R : relation A).
Hypothesis goes_first_spec : ∀ a b, goes_first a b = true ↔ R a b.
Hypothesis R_total : ∀ a b, R a b ∨ R b a.
Hypothesis R_trans : ∀ a b c, R a b → R b c → R a c.

Lemma sort_insert_sorted x l :
  StronglySorted R l → StronglySorted R (sort_insert goes_first x l).
Proof using goes_first_spec R_total R_trans.
  induction l as [|y l IH]; simpl; intros Hs.
  - repeat constructor.
  - apply StronglySorted_cons in Hs as [Hy Hl].
    destruct (goes_first x y) eqn:Hxy.
    + apply goes_first_spec in Hxy.
      apply StronglySorted_cons. split.
      * constructor; [done|]. eapply Forall_impl; [exact Hy|]. eauto.
      * by apply StronglySorted_cons.
    + assert (R y x) as Hyx.
      { destruct (R_total x y) as [H|H]; [|done].
        apply goes_first_spec in H. congruence. }
      apply StronglySorted_cons. split; [|by apply IH].
      rewrite sort_insert_perm. by constructor.
Qed.

Lemma Array_sort_sorted l : StronglySorted R (Array_sort goes_first l).
Proof using goes_first_spec R_total R_trans.
  induction l as [|x l IH]; simpl; [constructor|].
  by apply sort_insert_sorted.
Qed.
End sort_facts.

Lemma StronglySorted_filter {A} (R : relation A) (p : A → bool) l :
  StronglySorted R l → StronglySorted R (List.filter p l).
Proof.
  induction 1 as [|x l Hl IH Hx]; simpl; [constructor|].
  destruct (p x); [|done].
  constructor; [done|].
  rewrite Forall_forall in Hx |- *. intros y Hy.
  apply list_elem_of_In, filter_In in Hy as [Hy _].
  by apply Hx, list_elem_of_In.
Qed.

Lemma StronglySorted_lookup {A} (R : relation A) l (i j : nat) a b :
  StronglySorted R l → l !! i = Some a → l !! j = Some b → (i < j)%nat → R a b.
Proof.
  intros Hs. revert i j. induction Hs as [|x l Hl IH Hx]; intros i j Hi Hj Hij.
  - by rewrite lookup_nil in Hi.
  - destruct j as [|j]; [lia|]. simpl in Hj.
    destruct i as [|i]; simpl in Hi.
    + inversion Hi; subst. rewrite Forall_forall in Hx.
      apply Hx. by eapply list_elem_of_lookup_2.
    + eapply IH; [done..|lia].
Qed.

Lemma Object_entries_perm (o : Obj) : Object_entries o ≡ₚ o.
Proof.
  unfold Object_entries. rewrite Array_sort_perm.
  apply filter_app_complement.
Qed.

(** ** Label tables *)

Lemma sum_vals_from (l : list (string * Qc)) (a : Qc) :
  fold_left (λ sum e, (sum + e.2)%Qc) l a = (a + total_of l)%Qc.
Proof.
  revert a. induction l as [|e l IH]; intros a; simpl.
  - by rewrite Qcplus_0_r.
  - rewrite IH. ring.
Qed.

Lemma sum_vals_total_of l : sum_vals l = total_of l.
Proof. unfold sum_vals. rewrite sum_vals_from. apply Qcplus_0_l. Qed.

Lemma total_of_app l1 l2 : total_of (l1 ++ l2) = (total_of l1 + total_of l2)%Qc.
Proof.
  induction l1 as [|e l1 IH]; simpl; [by rewrite Qcplus_0_l|].
  rewrite IH. ring.
Qed.

#[global] Instance total_of_perm : Proper ((≡ₚ) ==> (=)) total_of.
Proof.
  induction 1 as [|x l l' _ IH|x y l|l1 l2 l3 _ IH1 _ IH2]; simpl.
  - done.
  - by rewrite IH.
  - ring.
  - by rewrite IH1.
Qed.

Lemma or0_Some v : or0 (Some v) = v.
Proof. simpl. by case_decide. Qed.

Lemma obj_get_set_eq o k v : obj_get (obj_set o k v) k = Some v.
Proof.
  induction o as [|[k' v'] o IH]; simpl.
  - by rewrite decide_True.
  - destruct (decide (k' = k)) as [->|Hne]; simpl.
    + by rewrite decide_True.
    + by rewrite decide_False.
Qed.

Lemma obj_get_set_ne o k k' v : k ≠ k' → obj_get (obj_set o k v) k' = obj_get o k'.
Proof.
  intros Hne. induction o as [|[k0 v0] o IH]; simpl.
  - by rewrite decide_False.
  - destruct (decide (k0 = k)) as [->|]; simpl.
    + by rewrite !decide_False by done.
    + by rewrite IH.
Qed.

Lemma total_of_accumulate o k w : total_of (accumulate o k w) = (total_of o + w)%Qc.
Proof.
  unfold accumulate. induction o as [|[k' v'] o IH]; simpl.
  - ring.
  - destruct (decide (k' = k)) as [->|]; simpl.
    + case_decide as Hv; [rewrite Hv|]; ring.
    + rewrite IH. ring.
Qed.

Lemma Forall_accumulate (P : Qc → Prop) o k w :
  Forall (λ e, P e.2) o → P (or0 (obj_get o k) + w)%Qc →
  Forall (λ e, P e.2) (accumulate o k w).
Proof.
  unfold accumulate. generalize (or0 (obj_get o k) + w)%Qc as v. intros v Ho Hv.
  induction Ho as [|[k' v'] o Hk Ho IH]; simpl.
  - by repeat constructor.
  - case_decide; constructor; auto.
Qed.

Lemma or0_get_nonneg o k :
  Forall (λ e, 0 ≤ e.2)%Qc o → (0 ≤ or0 (obj_get o k))%Qc.
Proof.
  induction 1 as [|[k' v'] o Hk Ho IH]; simpl; [done|].
  destruct (decide (k' = k)); [|done].
  unfold or0. by case_decide.
Qed.

(** ** The aggregation loop, one table at a time *)

Section table.
Variables (key : DataRow → string) (c : CohortType).

Lemma total_of_tally rows o :
  total_of (fold_left (tally_by key c) rows o) = (total_of o + weight_sum c rows)%Qc.
Proof.
  revert o. induction rows as [|d rows IH]; intros o; simpl.
  - by rewrite Qcplus_0_r.
  - rewrite IH. unfold tally_by. rewrite total_of_accumulate. ring.
Qed.

Lemma nonneg_tally rows o :
  Forall (λ d, 0 ≤ cohortWeight c d)%Qc rows →
  Forall (λ e, 0 ≤ e.2)%Qc o →
  Forall (λ e, 0 ≤ e.2)%Qc (fold_left (tally_by key c) rows o).
Proof.
  intros Hrows. revert o. induction Hrows as [|d rows Hd Hrows IH]; intros o Ho; simpl.
  - done.
  - apply IH. apply Forall_accumulate; [done|].
    apply Qcplus_nonneg_nonneg; [|done]. by apply or0_get_nonneg.
Qed.
End table.

Lemma tables_split rows c t :
  fold_left (tally c) rows t =
  {| t_edu := fold_left (tally_by education_level_label c) rows (t_edu t);
     t_age := fold_left (tally_by age_group c) rows (t_age t);
     t_occ := fold_left (tally_by soc_2019_5_acs_name c) rows (t_occ t) |}.
Proof.
  revert t. induction rows as [|d rows IH]; intros t; simpl.
  - by destruct t.
  - by rewrite IH.
Qed.

Lemma t_edu_tables rows c :
  t_edu (tables rows c) = fold_left (tally_by education_level_label c) rows [].
Proof. unfold tables. by rewrite tables_split. Qed.
Lemma t_age_tables rows c :
  t_age (tables rows c) = fold_left (tally_by age_group c) rows [].
Proof. unfold tables. by rewrite tables_split. Qed.
Lemma t_occ_tables rows c :
  t_occ (tables rows c) = fold_left (tally_by soc_2019_5_acs_name c) rows [].
Proof. unfold tables. by rewrite tables_split. Qed.

Section table_lookup.
Variables (key : DataRow → string) (c : CohortType).

Lemma label_sum_absent rows k : k ∉ map key rows → label_sum key c rows k = 0%Qc.
Proof.
  induction rows as [|d rows IH]; [done|].
  cbn [map label_sum foldr]. rewrite not_elem_of_cons. intros [Hne Hnin].
  rewrite decide_False by done. by apply IH.
Qed.

Lemma get_tally rows o k :
  obj_get (fold_left (tally_by key c) rows o) k =
  if decide (k ∈ map key rows)
  then Some (or0 (obj_get o k) + label_sum key c rows k)%Qc
  else obj_get o k.
Proof.
  revert o. induction rows as [|d rows IH]; intros o.
  - cbn [fold_left map]. rewrite decide_False; [done|]. apply not_elem_of_nil.
  - cbn [fold_left map]. rewrite IH. unfold tally_by, accumulate.
    destruct (decide (key d = k)) as [Hk|Hk].
    + rewrite Hk, obj_get_set_eq, or0_Some.
      rewrite (decide_True (P := k ∈ k :: map key rows)) by apply list_elem_of_here.
      cbn [label_sum foldr]. rewrite (decide_True (P := key d = k)) by done.
      fold (label_sum key c rows k).
      case_decide as Hin.
      * f_equal. ring.
      * rewrite (label_sum_absent rows k Hin). f_equal. ring.
    + rewrite obj_get_set_ne by done.
      cbn [label_sum foldr]. rewrite (decide_False (P := key d = k)) by done.
      fold (label_sum key c rows k).
      destruct (decide (k ∈ map key rows)) as [Hin|Hin].
      * rewrite decide_True; [done|]. by apply list_elem_of_further.
      * rewrite decide_False; [done|]. rewrite not_elem_of_cons. split; [congruence|done].
Qed.
End table_lookup.

Lemma keys_obj_set o k v k' :
  k' ∈ (obj_set o k v).*1 → k' = k ∨ k' ∈ o.*1.
Proof.
  induction o as [|[k0 v0] o IH]; cbn [obj_set fmap list_fmap fst].
  - rewrite elem_of_cons. intros [->|Hin]; [by left|]. by apply elem_of_nil in Hin.
  - case_decide as Hk; cbn [fmap list_fmap fst]; rewrite !elem_of_cons.
    + intros [->|Hin]; auto.
    + intros [->|Hin]; [auto|]. destruct (IH Hin); auto.
Qed.

Lemma keys_tally key c rows o k :
  k ∈ (fold_left (tally_by key c) rows o).*1 → k ∈ o.*1 ∨ k ∈ map key rows.
Proof.
  revert o. induction rows as [|d rows IH]; intros o; cbn [fold_left map].
  - by left.
  - intros H. destruct (IH _ H) as [H'|H'].
    + unfold tally_by, accumulate in H'. apply keys_obj_set in H' as [->|H'].
      * right. apply list_elem_of_here.
      * by left.
    + right. by apply list_elem_of_further.
Qed.

Lemma nodup_obj_set o k v : NoDup o.*1 → NoDup (obj_set o k v).*1.
Proof.
  induction o as [|[k0 v0] o IH]; cbn [obj_set fmap list_fmap fst]; intros Hnd.
  - apply NoDup_singleton.
  - apply NoDup_cons in Hnd as [Hk0 Hnd].
    case_decide as Hk; cbn [fmap list_fmap fst]; apply NoDup_cons.
    + done.
    + split; [|by apply IH].
      intros Hin. apply keys_obj_set in Hin as [->|Hin]; done.
Qed.

Lemma nodup_tally key c rows o :
  NoDup o.*1 → NoDup (fold_left (tally_by key c) rows o).*1.
Proof.
  revert o. induction rows as [|d rows IH]; intros o Hnd; cbn [fold_left]; [done|].
  apply IH. by apply nodup_obj_set.
Qed.

Lemma obj_get_elem_of o k v : NoDup o.*1 → (k, v) ∈ o ↔ obj_get o k = Some v.
Proof.
  induction o as [|[k0 v0] o IH]; cbn [obj_get fmap list_fmap fst]; intros Hnd.
  - split; [intros H; by apply elem_of_nil in H|done].
  - apply NoDup_cons in Hnd as [Hk0 Hnd]. rewrite elem_of_cons.
    destruct (decide (k0 = k)) as [->|Hne].
    + split.
      * intros [[= ->]|Hin]; [done|].
        exfalso. apply Hk0. by apply (list_elem_of_fmap_2 fst) in Hin.
      * intros [= ->]. by left.
    + rewrite <-(IH Hnd). split; [|by right].
      intros [[= ? ?]|Hin]; [congruence|done].
Qed.

(** The entries of a table after the loop: one per label that occurs, holding
    what the rows with that label weigh together. *)
Lemma table_entries key c rows k v :
  (k, v) ∈ fold_left (tally_by key c) rows [] ↔
  k ∈ map key rows ∧ v = label_sum key c rows k.
Proof.
  rewrite obj_get_elem_of by (apply nodup_tally, NoDup_nil_2).
  rewrite get_tally. cbn [obj_get or0]. case_decide as Hin.
  - rewrite Qcplus_0_l. split; [intros [= <-]; done|]. by intros [_ ->].
  - split; [done|]. by intros [? _].
Qed.

Lemma Object_entries_singleton k v : Object_entries [(k, v)] = [(k, v)].
Proof.
  unfold Object_entries. rewrite !filter_cons, !filter_nil. simpl.
  destruct (decide (is_Some (array_index k))) as [H|H].
  - rewrite decide_False by (intros H'; by apply H'). done.
  - by rewrite decide_True.
Qed.

(** C1. Under "All Stranded" a row adds
    [lowWageWeight + underemployedWeight + stalledWeight] to the entry of each
    of its three labels, and to no other entry, so that every entry of a
    breakdown holds the sum of that quantity over the rows carrying its label;
    a single scoped row with weights 10, 5 and 3 yields 18 under its
    education, age and occupation label. *)
Theorem C1_all_stranded_contribution :
  (∀ d, cohortWeight AllStranded d =
        (n_weighted_low_wage d + n_weighted_underemployed d + n_weighted_stalled d)%Qc)
  ∧ (∀ (t : Tables) (d : DataRow),
       let w := (n_weighted_low_wage d + n_weighted_underemployed d
                 + n_weighted_stalled d)%Qc in
       let t' := tally AllStranded t d in
       obj_get (t_edu t') (education_level_label d)
         = Some (or0 (obj_get (t_edu t) (education_level_label d)) + w)%Qc
       ∧ obj_get (t_age t') (age_group d)
         = Some (or0 (obj_get (t_age t) (age_group d)) + w)%Qc
       ∧ obj_get (t_occ t') (soc_2019_5_acs_name d)
         = Some (or0 (obj_get (t_occ t) (soc_2019_5_acs_name d)) + w)%Qc
       ∧ (∀ k, k ≠ education_level_label d → obj_get (t_edu t') k = obj_get (t_edu t) k)
       ∧ (∀ k, k ≠ age_group d → obj_get (t_age t') k = obj_get (t_age t) k)
       ∧ (∀ k, k ≠ soc_2019_5_acs_name d → obj_get (t_occ t') k = obj_get (t_occ t) k))
  ∧ (∀ (rows : list DataRow) (k : string) (v : Qc),
       ((k, v) ∈ edu (cohortBreakdowns rows AllStranded) ↔
          k ∈ map education_level_label rows
          ∧ v = label_sum education_level_label AllStranded rows k)
       ∧ ((k, v) ∈ age (cohortBreakdowns rows AllStranded) ↔
          k ∈ map age_group rows ∧ v = label_sum age_group AllStranded rows k)
       ∧ ((k, v) ∈ occ (cohortBreakdowns rows AllStranded) ↔
          k ∈ map soc_2019_5_acs_name rows
          ∧ v = label_sum soc_2019_5_acs_name AllStranded rows k ∧ (0 < v)%Qc))
  ∧ (∀ region sector_ n e o a,
       cohortBreakdowns [mkRow region sector_ n (qz 10) (qz 5) (qz 3) e o a] AllStranded
       = {| edu := [(e, qz 18)]; age := [(a, qz 18)]; occ := [(o, qz 18)] |}).
Proof.
  split; [done|]. split; [|split].
  - intros t d. cbv zeta. unfold tally. cbn [t_edu t_age t_occ cohortWeight].
    unfold accumulate. rewrite !obj_get_set_eq.
    repeat split; try done; intros k Hk; by apply obj_get_set_ne.
  - intros rows k v. unfold cohortBreakdowns. cbn [edu age occ].
    split; [|split].
    + by rewrite Array_sort_perm, Object_entries_perm, t_edu_tables, table_entries.
    + by rewrite Array_sort_perm, Object_entries_perm, t_age_tables, table_entries.
    + rewrite list_elem_of_In, filter_In, <-list_elem_of_In.
      rewrite Array_sort_perm, Object_entries_perm, t_occ_tables, table_entries.
      cbn [snd]. rewrite bool_decide_eq_true. tauto.
  - intros region sector_ n e o a.
    unfold cohortBreakdowns, tables. cbn [fold_left tally t_edu t_age t_occ].
    unfold accumulate. cbn [obj_get obj_set or0 cohortWeight].
    cbn [n_weighted_low_wage n_weighted_underemployed n_weighted_stalled
         education_level_label age_group soc_2019_5_acs_name].
    assert ((0 + (qz 10 + qz 5 + qz 3))%Qc = qz 18) as -> by (by apply Qc_is_canon).
    rewrite !Object_entries_singleton. done.
Qed.

(** ** Scope filter *)

Lemma in_scope_spec g sec d :
  in_scope g sec d = true ↔
  NAICS2_NAME d = sec ∧ (g = All ∨ msa_category d = MSA_str g).
Proof.
  unfold in_scope.
  rewrite andb_true_iff, orb_true_iff, !bool_decide_eq_true. tauto.
Qed.

Lemma filteredByScope_sublist rows g sec : filteredByScope rows g sec `sublist_of` rows.
Proof.
  unfold filteredByScope. induction rows as [|d rows IH]; simpl; [done|].
  destruct (in_scope g sec d); by constructor.
Qed.

Lemma filteredByScope_skip l1 d l2 g sec :
  in_scope g sec d = false →
  filteredByScope (l1 ++ d :: l2) g sec = filteredByScope (l1 ++ l2) g sec.
Proof.
  intros Hd. unfold filteredByScope.
  rewrite !List.filter_app. simpl. by rewrite Hd.
Qed.

(** C2. The scope filter keeps, in their order, exactly the rows of the
    selected sector that lie in the selected region, or all rows of the sector
    under the wildcard; a row of another region changes no stat and no
    breakdown. *)
Theorem C2_scope_filter_exact (rows : list DataRow) (g : MSACategory) (sec : string) :
  (∀ d, d ∈ filteredByScope rows g sec ↔
        d ∈ rows ∧ NAICS2_NAME d = sec ∧ (g = All ∨ msa_category d = MSA_str g))
  ∧ filteredByScope rows g sec `sublist_of` rows
  ∧ (g = All → ∀ d, d ∈ filteredByScope rows g sec ↔ d ∈ rows ∧ NAICS2_NAME d = sec)
  ∧ (∀ l1 d l2, rows = l1 ++ d :: l2 → g ≠ All → msa_category d ≠ MSA_str g →
       (d ∉ filteredByScope rows g sec)
       ∧ stats (filteredByScope rows g sec) = stats (filteredByScope (l1 ++ l2) g sec)
       ∧ ∀ c, cohortBreakdowns (filteredByScope rows g sec) c
              = cohortBreakdowns (filteredByScope (l1 ++ l2) g sec) c).
Proof.
  assert (∀ d, d ∈ filteredByScope rows g sec ↔
        d ∈ rows ∧ NAICS2_NAME d = sec ∧ (g = All ∨ msa_category d = MSA_str g)) as Hmem.
  { intros d. unfold filteredByScope.
    rewrite !list_elem_of_In, filter_In, in_scope_spec. tauto. }
  split; [done|]. split; [apply filteredByScope_sublist|]. split.
  - intros -> d. rewrite Hmem. tauto.
  - intros l1 d l2 -> Hg Hd. split.
    + rewrite Hmem. tauto.
    + rewrite filteredByScope_skip; [done|].
      apply not_true_is_false. rewrite in_scope_spec. tauto.
Qed.

Lemma C2_scope_filter_exact_witness :
  (rowMemphis ∉ filteredByScope [rowNashville; rowMemphis] Nashville "Manufacturing")
  ∧ stats (filteredByScope [rowNashville; rowMemphis] Nashville "Manufacturing")
    = stats (filteredByScope ([rowNashville] ++ []) Nashville "Manufacturing")
  ∧ ∀ c, cohortBreakdowns (filteredByScope [rowNashville; rowMemphis] Nashville "Manufacturing") c
         = cohortBreakdowns (filteredByScope ([rowNashville] ++ []) Nashville "Manufacturing") c.
Proof.
  apply (C2_scope_filter_exact [rowNashville; rowMemphis] Nashville "Manufacturing")
    with (l1 := [rowNashville]) (d := rowMemphis) (l2 := []).
  - reflexivity.
  - discriminate.
  - vm_compute. discriminate.
Defined.

(** ** Totals of the three breakdowns *)

Lemma cohortWeight_nonneg c d : nonneg_weights d → (0 ≤ cohortWeight c d)%Qc.
Proof.
  intros (_ & Hl & Hu & Hs). destruct c; simpl; try done.
  by repeat apply Qcplus_nonneg_nonneg.
Qed.

Lemma cohortWeights_nonneg c rows :
  Forall nonneg_weights rows → Forall (λ d, 0 ≤ cohortWeight c d)%Qc rows.
Proof. intros H. eapply Forall_impl; [exact H|]. intros d. apply cohortWeight_nonneg. Qed.


Lemma edu_total rows c :
  sum_vals (edu (cohortBreakdowns rows c)) = weight_sum c rows.
Proof.
  rewrite sum_vals_total_of. unfold cohortBreakdowns. cbn [edu].
  rewrite Array_sort_perm, Object_entries_perm, t_edu_tables, total_of_tally.
  apply Qcplus_0_l.
Qed.

Lemma age_total rows c :
  sum_vals (age (cohortBreakdowns rows c)) = weight_sum c rows.
Proof.
  rewrite sum_vals_total_of. unfold cohortBreakdowns. cbn [age].
  rewrite Array_sort_perm, Object_entries_perm, t_age_tables, total_of_tally.
  apply Qcplus_0_l.
Qed.




Section binary64_sums.
Import PrimFloat.


(** The same rows in reverse order give their one occupation another weight:
    an entry of a breakdown depends on the order of the rows in its last bit. *)
Example binary64_entry_depends_on_order :
  Binary64.occ (Binary64.cohortBreakdowns Binary64.tenths LowWage)
    = [("Machinist", 0.6000000000000001%float)]
  ∧ Binary64.occ (Binary64.cohortBreakdowns (rev Binary64.tenths) LowWage)
    = [("Machinist", 0.6%float)].
Proof. split; vm_compute; reflexivity. Qed.

(** The low-wage stat of the statewide scope against those of its two
    regional scopes added up. *)
Example binary64_stats_by_region :
  Binary64.lw (Binary64.stats (Binary64.filteredByScope Binary64.tenths All "Manufacturing"))
    = 0.6000000000000001%float
  ∧ (Binary64.lw
       (Binary64.stats (Binary64.filteredByScope Binary64.tenths Nashville "Manufacturing"))
     + Binary64.lw
         (Binary64.stats (Binary64.filteredByScope Binary64.tenths Memphis "Manufacturing")))%float
    = 0.6%float.
Proof. split; vm_compute; reflexivity. Qed.

(** The weight of one occupation can exceed the cohort total, which adds the
    same rows grouped by education level. *)
Example binary64_pool_exceeds_total :
  let b := Binary64.cohortBreakdowns Binary64.welders LowWage in
  Binary64.poolSize (Some "Welder") b = 0.6000000000000001%float
  ∧ Binary64.totalCohort b = 0.6%float
  ∧ (Binary64.totalCohort b <? Binary64.poolSize (Some "Welder") b)%float = true.
Proof. cbv zeta. repeat split; vm_compute; reflexivity. Qed.

End binary64_sums.

(** ** Order of the occupation breakdown *)

Lemma by_weight_desc_spec a b : by_weight_desc a b = true ↔ heavier_first a b.
Proof. unfold by_weight_desc, heavier_first. by rewrite bool_decide_eq_true, Qc_sub_le0. Qed.

Lemma occ_sorted rows c : StronglySorted heavier_first (occ (cohortBreakdowns rows c)).
Proof.
  unfold cohortBreakdowns. cbn [occ].
  apply StronglySorted_filter, (Array_sort_sorted by_weight_desc heavier_first).
  - apply by_weight_desc_spec.
  - intros a b. unfold heavier_first. destruct (Qclt_le_dec a.2 b.2); auto using Qclt_le_weak.
  - intros x y z Hxy Hyz. unfold heavier_first in *. by eapply Qcle_trans.
Qed.

(** C4. The occupation breakdown is in descending order of aggregated weight
    at every pair of adjacent positions, and each of its entries has a
    positive, hence non-zero, weight. *)
Theorem C4_occupation_sorted_desc (rows : list DataRow) (c : CohortType) :
  (∀ (i : nat) a b,
      occ (cohortBreakdowns rows c) !! i = Some a →
      occ (cohortBreakdowns rows c) !! S i = Some b →
      (b.2 ≤ a.2)%Qc)
  ∧ (∀ e, e ∈ occ (cohortBreakdowns rows c) → e.2 ≠ 0%Qc ∧ (0 < e.2)%Qc).
Proof.
  split.
  - intros i a b Ha Hb.
    apply (StronglySorted_lookup heavier_first _ i (S i) a b (occ_sorted rows c) Ha Hb).
    lia.
  - intros e He. unfold cohortBreakdowns in He. cbn [occ] in He.
    apply list_elem_of_In, filter_In in He as [_ He].
    apply bool_decide_eq_true in He. split; [|done].
    intros Hz. rewrite Hz in He. by apply Qclt_not_eq in He.
Qed.

Lemma C4_occupation_sorted_desc_witness :
  occ (cohortBreakdowns [rowNashville; rowMemphis] AllStranded) !! 0%nat
    = Some ("Welder", qz 320)
  ∧ occ (cohortBreakdowns [rowNashville; rowMemphis] AllStranded) !! 1%nat
    = Some ("Machinist", qz 180)
  ∧ (qz 180 ≤ qz 320)%Qc
  ∧ qz 180 ≠ 0%Qc.
Proof.
  assert (occ (cohortBreakdowns [rowNashville; rowMemphis] AllStranded) !! 0%nat
          = Some ("Welder", qz 320)) as H0 by compute_done.
  assert (occ (cohortBreakdowns [rowNashville; rowMemphis] AllStranded) !! 1%nat
          = Some ("Machinist", qz 180)) as H1 by compute_done.
  split; [exact H0|]. split; [exact H1|]. split.
  - exact (proj1 (C4_occupation_sorted_desc [rowNashville; rowMemphis] AllStranded)
             0%nat ("Welder", qz 320) ("Machinist", qz 180) H0 H1).
  - exact (proj1 (proj2 (C4_occupation_sorted_desc [rowNashville; rowMemphis] AllStranded)
                    ("Machinist", qz 180) (list_elem_of_lookup_2 _ _ _ H1))).
Defined.

(** ** Order of the education and age breakdowns *)

Lemma indexOf_from_absent i arr x : x ∉ arr → indexOf_from i arr x = -1.
Proof.
  revert i. induction arr as [|y arr IH]; intros i; [done|].
  cbn [indexOf_from]. rewrite not_elem_of_cons. intros [Hne Hnin].
  rewrite decide_False by congruence. by apply IH.
Qed.

Lemma indexOf_from_present i arr x : x ∈ arr → i ≤ indexOf_from i arr x.
Proof.
  revert i. induction arr as [|y arr IH]; intros i Hin.
  - by apply elem_of_nil in Hin.
  - cbn [indexOf_from]. case_decide as Hy; [lia|].
    apply elem_of_cons in Hin as [->|Hin]; [done|].
    specialize (IH (i + 1) Hin). lia.
Qed.

Lemma indexOf_absent arr x : x ∉ arr → indexOf arr x = -1.
Proof. apply indexOf_from_absent. Qed.

Lemma indexOf_present arr x : x ∈ arr → 0 ≤ indexOf arr x.
Proof. apply indexOf_from_present. Qed.

Lemma by_order_sorted order l : StronglySorted (index_le order) (Array_sort (by_order order) l).
Proof.
  apply Array_sort_sorted.
  - intros a b. unfold by_order, index_le. rewrite bool_decide_eq_true. lia.
  - intros a b. unfold index_le. lia.
  - intros x y z. unfold index_le. lia.
Qed.

Lemma by_order_unmapped_first order l : unmapped_first order (Array_sort (by_order order) l).
Proof.
  intros i j a b Ha Hb Hin Hnin.
  destruct (decide (j < i)%nat) as [|Hge]; [done|]. exfalso.
  apply indexOf_present in Hin. apply indexOf_absent in Hnin.
  destruct (decide (i = j)) as [->|Hne].
  - rewrite Ha in Hb. inversion Hb; subst. lia.
  - assert (index_le order a b) as Hle.
    { eapply (StronglySorted_lookup _ _ i j); [apply by_order_sorted|done..|lia]. }
    unfold index_le in Hle. lia.
Qed.

(** The claim as the specification words it fails: the unmapped labels
    "Unknown" and "65+" head the education and the age breakdown. *)
Lemma C5_unmapped_not_last :
  edu (cohortBreakdowns [rowNashville; rowUnknown] LowWage)
    = [("Unknown", qz 7); ("HS diploma/GED", qz 100)]
  ∧ age (cohortBreakdowns [rowNashville; rowUnknown] LowWage)
    = [("65+", qz 7); ("25-34", qz 100)]
  ∧ ¬ unmapped_last EDUCATION_ORDER (edu (cohortBreakdowns [rowNashville; rowUnknown] LowWage))
  ∧ ¬ unmapped_last AGE_GROUPS (age (cohortBreakdowns [rowNashville; rowUnknown] LowWage)).
Proof.
  assert (edu (cohortBreakdowns [rowNashville; rowUnknown] LowWage)
          = [("Unknown", qz 7); ("HS diploma/GED", qz 100)]) as He by compute_done.
  assert (age (cohortBreakdowns [rowNashville; rowUnknown] LowWage)
          = [("65+", qz 7); ("25-34", qz 100)]) as Ha by compute_done.
  split; [done|]. split; [done|]. rewrite He, Ha. split.
  - intros H.
    specialize (H 1%nat 0%nat ("HS diploma/GED", qz 100) ("Unknown", qz 7) eq_refl eq_refl).
    assert (1 < 0)%nat; [|lia]. apply H; compute_done.
  - intros H.
    specialize (H 1%nat 0%nat ("25-34", qz 100) ("65+", qz 7) eq_refl eq_refl).
    assert (1 < 0)%nat; [|lia]. apply H; compute_done.
Qed.

(** C5 (amended). An education or age label that is absent from its ordering
    table gets index [-1] and so sorts first: its entry precedes every entry
    whose label is in the table.  The sort is total and drops no entry. *)
Theorem C5_unmapped_labels_sort_first (rows : list DataRow) (c : CohortType) :
  unmapped_first EDUCATION_ORDER (edu (cohortBreakdowns rows c))
  ∧ unmapped_first AGE_GROUPS (age (cohortBreakdowns rows c))
  ∧ edu (cohortBreakdowns rows c) ≡ₚ t_edu (tables rows c)
  ∧ age (cohortBreakdowns rows c) ≡ₚ t_age (tables rows c).
Proof.
  unfold cohortBreakdowns. cbn [edu age].
  split; [apply by_order_unmapped_first|]. split; [apply by_order_unmapped_first|].
  by rewrite !Array_sort_perm, !Object_entries_perm.
Qed.

(** ** Profile classifier *)

(** C6. [highEduCount] adds up the labels "Bachelor's degree" and
    "Graduate degree"; the second is no level of [EDUCATION_ORDER], whose two
    highest levels are "Master's degree" and "Professional/Doctorate".  On a
    cohort made of one row with a master's degree the code computes a share
    of 0 and [isHighEducation = false], where the two highest levels hold the
    whole cohort. *)
Theorem C6_high_education_share_misses_top_levels :
  two_highest EDUCATION_ORDER = ["Master's degree"; "Professional/Doctorate"]
  ∧ ("Graduate degree" ∉ EDUCATION_ORDER)
  ∧ edu (cohortBreakdowns [rowMasters] LowWage) = [("Master's degree", qz 10)]
  ∧ totalCohort (cohortBreakdowns [rowMasters] LowWage) = qz 10
  ∧ highEduCount (cohortBreakdowns [rowMasters] LowWage) = 0%Qc
  ∧ highEducationShare (cohortBreakdowns [rowMasters] LowWage) = Fin 0%Qc
  ∧ isHighEducation (cohortBreakdowns [rowMasters] LowWage) = false
  ∧ spec_highEduCount (cohortBreakdowns [rowMasters] LowWage) = qz 10
  ∧ spec_highEducationShare (cohortBreakdowns [rowMasters] LowWage) = Fin 1%Qc
  ∧ jsgt (spec_highEducationShare (cohortBreakdowns [rowMasters] LowWage)) (Q2Qc (2 # 5))
    = true.
Proof. repeat split; compute_done. Qed.

Lemma total_zero_all_zero l :
  Forall (λ e, 0 ≤ e.2)%Qc l → total_of l = 0%Qc → Forall (λ e, e.2 = 0%Qc) l.
Proof.
  induction 1 as [|e l He Hl IH]; simpl; intros Hsum; [constructor|].
  assert (0 ≤ total_of l)%Qc as Hnn.
  { clear -Hl. induction Hl as [|x l Hx Hl IH]; simpl; [done|].
    by apply Qcplus_nonneg_nonneg. }
  destruct (Qc_sum_zero _ _ He Hnn Hsum) as [He0 Hl0]. constructor; auto.
Qed.

Lemma total_of_all_zero l : Forall (λ e, e.2 = 0%Qc) l → total_of l = 0%Qc.
Proof.
  induction 1 as [|e l He Hl IH]; simpl; [done|].
  by rewrite He, IH, Qcplus_0_l.
Qed.

Lemma Forall_List_filter {A} (P : A → Prop) (p : A → bool) l :
  Forall P l → Forall P (List.filter p l).
Proof.
  induction 1 as [|x l Hx Hl IH]; simpl; [constructor|].
  destruct (p x); [by constructor|done].
Qed.

Lemma sum_filter_all_zero p l :
  Forall (λ e, e.2 = 0%Qc) l → sum_vals (List.filter p l) = 0%Qc.
Proof.
  intros H. rewrite sum_vals_total_of.
  by apply total_of_all_zero, Forall_List_filter.
Qed.

Lemma find_all_zero (p : string * Qc → bool) l :
  Forall (λ e, e.2 = 0%Qc) l → or0 (snd <$> List.find p l) = 0%Qc.
Proof.
  induction 1 as [|e l He Hl IH]; simpl; [done|].
  destruct (p e); [|done]. simpl. rewrite He. by case_decide.
Qed.

Lemma jsdiv_0_0 : jsdiv 0%Qc 0%Qc = NaN.
Proof. unfold jsdiv. by rewrite !decide_True. Qed.

Section zero_total.
Variables (rows : list DataRow) (c : CohortType).
Hypothesis rows_nonneg : Forall nonneg_weights rows.
Hypothesis total_zero : totalCohort (cohortBreakdowns rows c) = 0%Qc.

Lemma weight_sum_zero : weight_sum c rows = 0%Qc.
Proof using total_zero. rewrite <-edu_total. exact total_zero. Qed.

Lemma edu_all_zero : Forall (λ e, e.2 = 0%Qc) (edu (cohortBreakdowns rows c)).
Proof using rows_nonneg total_zero.
  apply total_zero_all_zero.
  - unfold cohortBreakdowns. cbn [edu].
    rewrite Array_sort_perm, Object_entries_perm, t_edu_tables.
    apply nonneg_tally; [by apply cohortWeights_nonneg|constructor].
  - rewrite <-sum_vals_total_of. exact total_zero.
Qed.

Lemma age_all_zero : Forall (λ e, e.2 = 0%Qc) (age (cohortBreakdowns rows c)).
Proof using rows_nonneg total_zero.
  apply total_zero_all_zero.
  - unfold cohortBreakdowns. cbn [age].
    rewrite Array_sort_perm, Object_entries_perm, t_age_tables.
    apply nonneg_tally; [by apply cohortWeights_nonneg|constructor].
  - rewrite <-sum_vals_total_of, age_total. exact weight_sum_zero.
Qed.

Lemma shares_NaN :
  youngShare (cohortBreakdowns rows c) = NaN
  ∧ matureShare (cohortBreakdowns rows c) = NaN
  ∧ lowEducationShare (cohortBreakdowns rows c) = NaN
  ∧ highEducationShare (cohortBreakdowns rows c) = NaN
  ∧ someCollegeShare (cohortBreakdowns rows c) = NaN.
Proof using rows_nonneg total_zero.
  unfold youngShare, matureShare, lowEducationShare, highEducationShare,
    someCollegeShare, youngCount, matureCount, lowEduCount, highEduCount,
    someCollegeCount.
  rewrite total_zero.
  rewrite !(sum_filter_all_zero _ _ age_all_zero).
  rewrite !(sum_filter_all_zero _ _ edu_all_zero).
  rewrite (find_all_zero _ _ edu_all_zero).
  by rewrite jsdiv_0_0.
Qed.
End zero_total.

(** On a cohort of total weight zero the shares are NaN, not zero. *)
Lemma C7_zero_total_share_is_NaN :
  totalCohort (cohortBreakdowns [rowIdle] LowWage) = 0%Qc
  ∧ sum_vals (age (cohortBreakdowns [rowIdle] LowWage)) = 0%Qc
  ∧ youngShare (cohortBreakdowns [rowIdle] LowWage) = NaN
  ∧ youngShare (cohortBreakdowns [rowIdle] LowWage) ≠ Fin 0%Qc
  ∧ someCollegeShare (cohortBreakdowns [rowIdle] LowWage) = NaN
  ∧ someCollegeShare (cohortBreakdowns [rowIdle] LowWage) ≠ Fin 0%Qc.
Proof. repeat split; compute_done. Qed.

(** C7 (amended). When the weights are non-negative and the cohort's total
    weight is zero, each of the five quotients is NaN (the division is not
    guarded and raises no error), every comparison with it is false, so the
    five booleans are false; the age breakdown then has total zero as well. *)
Theorem C7_zero_total_booleans_false (rows : list DataRow) (c : CohortType) :
  Forall nonneg_weights rows →
  totalCohort (cohortBreakdowns rows c) = 0%Qc →
  let b := cohortBreakdowns rows c in
  sum_vals (age b) = 0%Qc
  ∧ (youngShare b = NaN ∧ matureShare b = NaN ∧ lowEducationShare b = NaN
     ∧ highEducationShare b = NaN ∧ someCollegeShare b = NaN)
  ∧ (isYoungCohort b = false ∧ isMatureCohort b = false ∧ isLowEducation b = false
     ∧ isHighEducation b = false ∧ hasSomeCollege b = false).
Proof.
  intros Hrows Hzero b. subst b.
  pose proof (shares_NaN rows c Hrows Hzero) as (Hy & Hm & Hl & Hh & Hs).
  split; [|split; [done|]].
  - rewrite age_total. by apply weight_sum_zero.
  - unfold isYoungCohort, isMatureCohort, isLowEducation, isHighEducation, hasSomeCollege.
    by rewrite Hy, Hm, Hl, Hh, Hs.
Qed.

Lemma C7_zero_total_booleans_false_witness :
  let b := cohortBreakdowns [rowIdle] LowWage in
  sum_vals (age b) = 0%Qc
  ∧ (youngShare b = NaN ∧ matureShare b = NaN ∧ lowEducationShare b = NaN
     ∧ highEducationShare b = NaN ∧ someCollegeShare b = NaN)
  ∧ (isYoungCohort b = false ∧ isMatureCohort b = false ∧ isLowEducation b = false
     ∧ isHighEducation b = false ∧ hasSomeCollege b = false).
Proof.
  apply (C7_zero_total_booleans_false [rowIdle] LowWage).
  - repeat constructor; by vm_compute.
  - compute_done.
Defined.

(** Without the invariant on the weights the booleans need not be false:
    weights that cancel give a zero total under a positive young count. *)
Example zero_total_signed_weights :
  totalCohort (cohortBreakdowns [rowGain; rowLoss] LowWage) = 0%Qc
  ∧ youngShare (cohortBreakdowns [rowGain; rowLoss] LowWage) = PosInf
  ∧ isYoungCohort (cohortBreakdowns [rowGain; rowLoss] LowWage) = true.
Proof. repeat split; compute_done. Qed.

(** ** Recommendation composer *)

Lemma append_nil (t : string) : String.append "" t = t.
Proof. reflexivity. Qed.

Lemma append_cons a (p t : string) :
  String.append (String a p) t = String a (String.append p t).
Proof. reflexivity. Qed.

Lemma prefix_spec (p s : string) :
  String.prefix p s = true ↔ ∃ t, s = String.append p t.
Proof.
  revert p. induction s as [|b s IH]; intros [|a p]; simpl.
  - split; [intros _; by exists ""|done].
  - split; [done|]. by intros [t Ht].
  - split; [intros _; by eexists|done].
  - destruct (Ascii.ascii_dec a b) as [->|Hne].
    + rewrite IH. split; intros [t Ht]; exists t; rewrite append_cons in *; congruence.
    + split; [done|]. intros [t Ht]. rewrite append_cons in Ht. congruence.
Qed.

Lemma includes_spec (s sub : string) : includes s sub = true ↔ contains s sub.
Proof.
  unfold contains. split.
  - induction s as [|a s IH]; cbn [includes]; rewrite orb_true_iff; intros [Hp|Hr].
    + apply prefix_spec in Hp as [t Ht]. by exists "", t.
    + done.
    + apply prefix_spec in Hp as [t Ht]. by exists "", t.
    + destruct (IH Hr) as (pre & post & ->). by exists (String a pre), post.
  - intros (pre & post & ->). induction pre as [|a pre IH].
    + rewrite append_nil.
      assert (String.prefix sub (String.append sub post) = true) as Hp.
      { apply prefix_spec. by exists post. }
      destruct (String.append sub post); cbn [includes]; by rewrite Hp.
    + rewrite append_cons. cbn [includes]. rewrite IH. apply orb_true_r.
Qed.

Lemma isEntrepreneurshipViable_spec (target : option string) :
  isEntrepreneurshipViable target = true ↔
  ∃ label kw, target = Some label ∧ kw ∈ entrepreneurshipOccupations ∧ contains label kw.
Proof.
  unfold isEntrepreneurshipViable. rewrite existsb_exists. split.
  - intros (kw & Hin & Hinc). destruct target as [label|].
    + exists label, kw. split; [done|]. split; [by apply list_elem_of_In|].
      by apply includes_spec.
    + exfalso. simpl in Hinc.
      apply list_elem_of_In in Hin.
      unfold entrepreneurshipOccupations in Hin.
      repeat (apply elem_of_cons in Hin as [->|Hin]; [discriminate|]).
      by apply elem_of_nil in Hin.
  - intros (label & kw & -> & Hin & Hc). exists kw.
    split; [by apply list_elem_of_In|]. by apply includes_spec.
Qed.

Section composition.
Variables (g : MSACategory) (sec : string) (c : CohortType)
          (target : option string) (b : Breakdowns).

Lemma recommendations_shape :
  recommendations g sec c target b =
  [age_strategy g sec target b; education_strategy g sec c target b;
   sector_strategy g sec c target]
  ++ (if hasSomeCollege b then [rec_college g target b] else [])
  ++ [rec_internal g sec target]
  ++ (if isEntrepreneurshipViable target then [rec_self_employment sec target] else []).
Proof.
  unfold recommendations, age_strategy, education_strategy, sector_strategy, push.
  destruct (isYoungCohort b), (isMatureCohort b), (isLowEducation b),
    (isHighEducation b), (hasSomeCollege b), (isEntrepreneurshipViable target);
    destruct (isManufacturing sec); try reflexivity;
    destruct (isHealthcare sec); try reflexivity;
    destruct (isRetail sec); try reflexivity;
    destruct (isConstruction sec); try reflexivity;
    destruct (isProfessional sec); try reflexivity;
    destruct (isEducation sec); reflexivity.
Qed.
End composition.

(** C8. The recommendation list is, in this order: one of the three age
    strategies, one of the three education strategies, one of the seven sector
    strategies, the college-completion entry exactly when [hasSomeCollege],
    the internal-mobility entry, and the self-employment entry exactly when
    the target occupation is set and its label contains a trade keyword. *)
Theorem C8_recommendation_order
    (g : MSACategory) (sec : string) (c : CohortType)
    (target : option string) (b : Breakdowns) :
  ∃ (a e s : Rec) (college entre : list Rec),
    recommendations g sec c target b
      = [a; e; s] ++ college ++ [rec_internal g sec target] ++ entre
    ∧ a = age_strategy g sec target b
    ∧ a ∈ [rec_youth g sec target; rec_midcareer target; rec_advancement sec target]
    ∧ e = education_strategy g sec c target b
    ∧ e ∈ [rec_foundational g sec target b; rec_advanced c target b;
           rec_flexible sec target]
    ∧ s = sector_strategy g sec c target
    ∧ s ∈ [rec_manufacturing g target; rec_healthcare g c target; rec_retail target;
           rec_construction target; rec_professional g sec target;
           rec_education g target; rec_cross_sector target]
    ∧ (college = [rec_college g target b] ∨ college = [])
    ∧ (college = [rec_college g target b] ↔ hasSomeCollege b = true)
    ∧ (entre = [rec_self_employment sec target] ∨ entre = [])
    ∧ (entre = [rec_self_employment sec target] ↔
       ∃ label kw, target = Some label ∧ kw ∈ entrepreneurshipOccupations
                   ∧ contains label kw).
Proof.
  exists (age_strategy g sec target b), (education_strategy g sec c target b),
    (sector_strategy g sec c target),
    (if hasSomeCollege b then [rec_college g target b] else []),
    (if isEntrepreneurshipViable target then [rec_self_employment sec target] else []).
  split; [apply recommendations_shape|].
  split; [done|]. split.
  { unfold age_strategy. destruct (isYoungCohort b), (isMatureCohort b);
      rewrite !elem_of_cons; auto. }
  split; [done|]. split.
  { unfold education_strategy. destruct (isLowEducation b), (isHighEducation b);
      rewrite !elem_of_cons; auto. }
  split; [done|]. split.
  { unfold sector_strategy.
    destruct (isManufacturing sec), (isHealthcare sec), (isRetail sec),
      (isConstruction sec), (isProfessional sec), (isEducation sec);
      rewrite !elem_of_cons; repeat (first [by left | right]). }
  split; [destruct (hasSomeCollege b); auto|].
  split; [destruct (hasSomeCollege b); split; done|].
  split; [destruct (isEntrepreneurshipViable target); auto|].
  rewrite <-isEntrepreneurshipViable_spec.
  destruct (isEntrepreneurshipViable target); split; done.
Qed.

(** ** Scope panel *)

Lemma stats_from rows s0 :
  fold_left
    (λ s d,
      {| total := (total s + n_weighted d)%Qc;
         lw := (lw s + n_weighted_low_wage d)%Qc;
         ue := (ue s + n_weighted_underemployed d)%Qc;
         st := (st s + n_weighted_stalled d)%Qc |})
    rows s0
  = {| total := (total s0 + sum_by n_weighted rows)%Qc;
       lw := (lw s0 + sum_by n_weighted_low_wage rows)%Qc;
       ue := (ue s0 + sum_by n_weighted_underemployed rows)%Qc;
       st := (st s0 + sum_by n_weighted_stalled rows)%Qc |}.
Proof.
  revert s0. induction rows as [|d rows IH]; intros s0; simpl.
  - rewrite !Qcplus_0_r. by destruct s0.
  - rewrite IH. simpl. f_equal; ring.
Qed.

Lemma stats_sums rows :
  stats rows = {| total := sum_by n_weighted rows;
                  lw := sum_by n_weighted_low_wage rows;
                  ue := sum_by n_weighted_underemployed rows;
                  st := sum_by n_weighted_stalled rows |}.
Proof. unfold stats. rewrite stats_from. simpl. by rewrite !Qcplus_0_l. Qed.

(** C9. The number shown as "Stranded Rate" is the low-wage sum over the
    total sum of the scoped rows, as a percentage; the underemployed and the
    stalled sums have no part in it, and it differs from the rate of the three
    cohorts taken together. *)
Theorem C9_stranded_rate_is_low_wage_rate :
  (∀ rows,
     strandedRate (stats rows)
     = jsmul_pos (jsdiv (sum_by n_weighted_low_wage rows) (sum_by n_weighted rows)) (qz 100))
  ∧ (∀ t l u u' s s',
       strandedRate (mkStats t l u s) = strandedRate (mkStats t l u' s'))
  ∧ (∀ rows rows',
       sum_by n_weighted rows = sum_by n_weighted rows' →
       sum_by n_weighted_low_wage rows = sum_by n_weighted_low_wage rows' →
       strandedRate (stats rows) = strandedRate (stats rows'))
  ∧ strandedRate (stats [rowNashville]) = Fin (qz 20)
  ∧ strandedRateText (stats [rowNashville]) = "20%"
  ∧ jsmul_pos (jsdiv (lw (stats [rowNashville]) + ue (stats [rowNashville])
                      + st (stats [rowNashville]))%Qc
                     (total (stats [rowNashville]))) (qz 100) = Fin (qz 36).
Proof.
  split; [|split; [|split; [|split; [|split]]]].
  - intros rows. by rewrite stats_sums.
  - done.
  - intros rows rows' Ht Hl. rewrite !stats_sums. unfold strandedRate. simpl.
    by rewrite Ht, Hl.
  - compute_done.
  - by vm_compute.
  - compute_done.
Qed.

(** With nothing in scope the panel divides zero by zero. *)
Example strandedRateText_empty_scope : strandedRateText (stats []) = "NaN%".
Proof. by vm_compute. Qed.

Lemma C9_stranded_rate_is_low_wage_rate_witness :
  strandedRate (stats [rowNashville]) = strandedRate (stats [rowNashvilleIdle]).
Proof.
  apply (proj1 (proj2 (proj2 C9_stranded_rate_is_low_wage_rate))
           [rowNashville] [rowNashvilleIdle]); compute_done.
Defined.

(** ** The target occupation across selection changes *)

Lemma occ_labels rows c e :
  e ∈ occ (cohortBreakdowns rows c) → e.1 ∈ map soc_2019_5_acs_name rows.
Proof.
  unfold cohortBreakdowns. cbn [occ]. intros H.
  apply list_elem_of_In, filter_In in H as [H _]. apply list_elem_of_In in H.
  rewrite Array_sort_perm, Object_entries_perm, t_occ_tables in H.
  assert (e.1 ∈ (fold_left (tally_by soc_2019_5_acs_name c) rows []).*1) as Hk.
  { by apply list_elem_of_fmap_2. }
  apply keys_tally in Hk as [Hk|Hk]; [|done]. by apply elem_of_nil in Hk.
Qed.

Lemma or_str_nonempty x dflt : dflt ≠ "" → or_str x dflt ≠ "".
Proof. intros Hd. destruct x as [s|]; simpl; [|done]. by case_decide. Qed.

Lemma loader_labelled raw : labelled (mappedData raw).
Proof.
  unfold labelled, mappedData. apply Forall_forall. intros d Hd.
  apply list_elem_of_fmap in Hd as (row & -> & _). cbn [soc_2019_5_acs_name].
  by apply or_str_nonempty.
Qed.

Lemma occ_label_nonempty s e :
  labelled (rawData s) → e ∈ occ (breakdowns s) → e.1 ≠ "".
Proof.
  intros Hl He. apply occ_labels in He.
  apply list_elem_of_fmap in He as (d & -> & Hd).
  unfold scoped, filteredByScope in Hd.
  apply list_elem_of_In, filter_In in Hd as [Hd _]. apply list_elem_of_In in Hd.
  unfold labelled in Hl. rewrite Forall_forall in Hl. by apply Hl.
Qed.

Lemma autoPopulate_ok s : session_ok s → session_ok (autoPopulate s).
Proof.
  intros [Hl Ht]. unfold autoPopulate.
  destruct (occ (breakdowns s)) as [|top rest] eqn:Hocc; [done|].
  destruct (falsy (targetOccupation s)); [|done].
  split; [done|]. cbn. intros o [= <-].
  apply (occ_label_nonempty s top Hl). rewrite Hocc. apply list_elem_of_here.
Qed.

Lemma handle_ok ev s : session_ok s → session_ok (handle ev s).
Proof.
  intros [Hl Ht]. destruct ev as [raw|g|x|c|i|i]; cbn [handle]; try done.
  - split; [apply loader_labelled|done].
  - destruct (take 10 (occ (breakdowns s)) !! i) as [card|] eqn:Hcard; [|done].
    split; [done|]. cbn. intros o [= <-].
    apply (occ_label_nonempty s card Hl).
    apply lookup_take_Some in Hcard as [Hcard _].
    by eapply list_elem_of_lookup_2.
Qed.

Lemma reachable_ok s : reachable s → session_ok s.
Proof.
  induction 1 as [|s ev _ IH].
  - split; [constructor|done].
  - by apply autoPopulate_ok, handle_ok.
Qed.

Lemma autoPopulate_keeps s o :
  targetOccupation s = Some o → o ≠ "" → autoPopulate s = s.
Proof.
  intros Ht Ho. unfold autoPopulate. rewrite Ht. cbn [falsy].
  rewrite bool_decide_eq_false_2 by done. by destruct (occ (breakdowns s)).
Qed.

Lemma selection_change_keeps s ev o :
  session_ok s → selection_change ev = true →
  targetOccupation s = Some o →
  targetOccupation (step s ev) = Some o ∧ session_ok (step s ev).
Proof.
  intros Hok Hev Ht.
  assert (session_ok (step s ev)) as Hok' by (by apply autoPopulate_ok, handle_ok).
  split; [|done].
  assert (targetOccupation (handle ev s) = Some o) as Hh.
  { destruct ev; try discriminate; done. }
  unfold step. rewrite (autoPopulate_keeps _ o); [done..|].
  destruct Hok as [_ Hne]. by apply Hne.
Qed.

Lemma reachable_run s evs : reachable s → reachable (run s evs).
Proof.
  revert s. induction evs as [|ev evs IH]; intros s Hs; [done|].
  cbn [run fold_left]. apply IH. by constructor.
Qed.

Lemma selection_changes_keep s evs o :
  session_ok s → forallb selection_change evs = true →
  targetOccupation s = Some o → targetOccupation (run s evs) = Some o.
Proof.
  revert s. induction evs as [|ev evs IH]; intros s Hok Hevs Ht; [done|].
  cbn [forallb] in Hevs. apply andb_true_iff in Hevs as [Hev Hevs].
  destruct (selection_change_keeps s ev o Hok Hev Ht) as [Ht' Hok'].
  cbn [run fold_left]. by apply IH.
Qed.

(** C10. In a session, once the target occupation is set, no sequence of
    geography, sector or cohort changes alters it: the effect that fills it in
    acts only while it is [null].  It can therefore name an occupation that
    the occupation breakdown on display does not list. *)
Theorem C10_target_occupation_sticky :
  (∀ s o evs,
     reachable s → targetOccupation s = Some o →
     forallb selection_change evs = true →
     targetOccupation (run s evs) = Some o)
  ∧ (∀ s, reachable s →
       targetOccupation (autoPopulate s) ≠ targetOccupation s →
       targetOccupation s = None)
  ∧ (∃ s o, reachable s ∧ targetOccupation s = Some o
            ∧ o ∉ (occ (breakdowns s)).*1)
  ∧ (targetOccupation demoLoaded = Some "Welder"
     ∧ (occ (breakdowns demoLoaded)).*1 = ["Welder"; "Machinist"]
     ∧ targetOccupation (step demoLoaded (RegionClick Nashville)) = Some "Welder"
     ∧ (occ (breakdowns (step demoLoaded (RegionClick Nashville)))).*1 = ["Machinist"]).
Proof.
  split; [|split; [|split]].
  - intros s o evs Hs Ht Hevs.
    apply selection_changes_keep; [by apply reachable_ok|done..].
  - intros s Hs Hne. destruct (targetOccupation s) as [o|] eqn:Ht; [|done].
    exfalso. apply Hne. destruct (reachable_ok s Hs) as [_ Ho].
    rewrite (autoPopulate_keeps s o); [done..|]. by apply Ho.
  - exists (step demoLoaded (RegionClick Nashville)), "Welder".
    split; [|split].
    + apply reachable_step. apply (reachable_run initialState), reachable_init.
    + by vm_compute.
    + compute_done.
  - repeat split; by vm_compute.
Qed.

Lemma C10_target_occupation_sticky_witness :
  reachable demoLoaded
  ∧ targetOccupation demoLoaded = Some "Welder"
  ∧ targetOccupation
      (run demoLoaded
           [RegionClick Nashville; CohortClick Underemployed; SectorChange "Retail Trade"])
    = Some "Welder".
Proof.
  assert (reachable demoLoaded) as Hr
    by apply (reachable_run initialState), reachable_init.
  assert (targetOccupation demoLoaded = Some "Welder") as Ht by (by vm_compute).
  split; [exact Hr|]. split; [exact Ht|].
  apply (proj1 C10_target_occupation_sticky demoLoaded "Welder" _ Hr Ht).
  reflexivity.
Defined.

(** ** Sector options *)

Lemma Set_from_acc (arr seen : list string) :
  let out := fold_left (λ seen x, if decide (x ∈ seen) then seen else seen ++ [x]) arr seen in
  (NoDup seen → NoDup out) ∧ ∀ x, x ∈ out ↔ x ∈ seen ∨ x ∈ arr.
Proof.
  revert seen. induction arr as [|y arr IH]; intros seen; cbn [fold_left].
  - split; [done|]. intros x. rewrite elem_of_nil. tauto.
  - destruct (IH (if decide (y ∈ seen) then seen else seen ++ [y])) as [IHnd IHin].
    split.
    + intros Hnd. apply IHnd. case_decide as Hy; [done|].
      apply NoDup_app. split; [done|]. split; [|apply NoDup_singleton].
      intros x Hx Hx'. apply list_elem_of_singleton in Hx' as ->. done.
    + intros x. rewrite IHin, elem_of_cons. case_decide as Hy.
      * split; [tauto|]. intros [?|[->|?]]; auto.
      * rewrite elem_of_app, list_elem_of_singleton. tauto.
Qed.

Lemma Set_from_NoDup arr : NoDup (Set_from arr).
Proof. apply (Set_from_acc arr []), NoDup_nil_2. Qed.

Lemma Set_from_elem_of arr x : x ∈ Set_from arr ↔ x ∈ arr.
Proof.
  unfold Set_from. rewrite (proj2 (Set_from_acc arr [])), elem_of_nil. tauto.
Qed.

Lemma selectable_spec s : selectable s = true ↔ s ≠ "" ∧ s ≠ "Other" ∧ s ≠ "NA".
Proof.
  unfold selectable.
  rewrite !andb_true_iff, !negb_true_iff, !bool_decide_eq_false. tauto.
Qed.

Lemma sectors_sorted rawData : StronglySorted String.le (sectors rawData).
Proof.
  unfold sectors. apply Array_sort_sorted.
  - intros a b. unfold by_code_units, String.le. by destruct (String.leb a b).
  - intros a b. destruct (String.le_total a b); auto.
  - intros a b c. apply transitivity.
Qed.

Lemma sectors_NoDup rawData : NoDup (sectors rawData).
Proof. unfold sectors. rewrite Array_sort_perm. apply Set_from_NoDup. Qed.

Lemma sectors_elem_of rawData s :
  s ∈ sectors rawData ↔
  s ∈ map NAICS2_NAME rawData ∧ s ≠ "" ∧ s ≠ "Other" ∧ s ≠ "NA".
Proof.
  unfold sectors.
  rewrite Array_sort_perm, Set_from_elem_of, list_elem_of_In, filter_In, <-list_elem_of_In.
  by rewrite selectable_spec.
Qed.

Lemma le_ne_ltb (a b : string) : String.le a b → a ≠ b → String.ltb a b = true.
Proof.
  unfold String.le, String.leb, String.ltb. intros Hle Hne.
  destruct (String.compare a b) eqn:Hc; [|done..].
  by apply String.compare_eq_iff in Hc.
Qed.

(** X1. The sector dropdown lists each sector of the dataset once, in
    strictly ascending order of code units, and leaves out the empty label,
    "Other" and "NA". *)
Theorem X1_sector_options (rawData : list DataRow) :
  (∀ s, s ∈ sectors rawData ↔
        s ∈ map NAICS2_NAME rawData ∧ s ≠ "" ∧ s ≠ "Other" ∧ s ≠ "NA")
  ∧ NoDup (sectors rawData)
  ∧ (∀ (i j : nat) a b,
       sectors rawData !! i = Some a → sectors rawData !! j = Some b →
       (i < j)%nat → String.ltb a b = true).
Proof.
  split; [apply sectors_elem_of|]. split; [apply sectors_NoDup|].
  intros i j a b Ha Hb Hij. apply le_ne_ltb.
  - by apply (StronglySorted_lookup _ _ i j a b (sectors_sorted rawData)).
  - intros ->. pose proof (sectors_NoDup rawData) as Hnd.
    rewrite NoDup_alt in Hnd. specialize (Hnd i j b Ha Hb). lia.
Qed.

Lemma X1_sector_options_witness :
  sectors [rowMasters; rowUnlabelled; rowRetail; rowNashville] = ["Manufacturing"; "Retail Trade"]
  ∧ String.ltb "Manufacturing" "Retail Trade" = true.
Proof.
  assert (sectors [rowMasters; rowUnlabelled; rowRetail; rowNashville]
          = ["Manufacturing"; "Retail Trade"]) as Hs by (by vm_compute).
  split; [exact Hs|].
  apply (proj2 (proj2 (X1_sector_options [rowMasters; rowUnlabelled; rowRetail; rowNashville]))
           0%nat 1%nat); [by rewrite Hs..|lia].
Defined.

(** ** Loader *)



(** ** Stats *)

#[global] Instance sum_by_perm f : Proper ((≡ₚ) ==> (=)) (sum_by f).
Proof.
  induction 1 as [|x l l' _ IH|x y l|l1 l2 l3 _ IH1 _ IH2]; simpl.
  - done.
  - by rewrite IH.
  - ring.
  - by rewrite IH1.
Qed.

Lemma sum_by_app f l1 l2 : sum_by f (l1 ++ l2) = (sum_by f l1 + sum_by f l2)%Qc.
Proof.
  induction l1 as [|d l1 IH]; simpl; [by rewrite Qcplus_0_l|].
  rewrite IH. ring.
Qed.

(** X3. The four stats are zero on an empty scope, add up over a
    concatenation of row sets, and do not depend on the order of the rows. *)
Theorem X3_stats_additive (l1 l2 rows rows' : list DataRow) :
  rows ≡ₚ rows' →
  stats [] = mkStats 0%Qc 0%Qc 0%Qc 0%Qc
  ∧ stats (l1 ++ l2)
    = mkStats (total (stats l1) + total (stats l2))%Qc (lw (stats l1) + lw (stats l2))%Qc
              (ue (stats l1) + ue (stats l2))%Qc (st (stats l1) + st (stats l2))%Qc
  ∧ stats rows = stats rows'.
Proof.
  intros Hperm. split; [done|]. rewrite !stats_sums. cbn [total lw ue st]. split.
  - by rewrite !sum_by_app.
  - by rewrite Hperm.
Qed.

Lemma X3_stats_additive_witness :
  stats [] = mkStats 0%Qc 0%Qc 0%Qc 0%Qc
  ∧ stats ([rowNashville] ++ [rowMemphis])
    = mkStats (total (stats [rowNashville]) + total (stats [rowMemphis]))%Qc
              (lw (stats [rowNashville]) + lw (stats [rowMemphis]))%Qc
              (ue (stats [rowNashville]) + ue (stats [rowMemphis]))%Qc
              (st (stats [rowNashville]) + st (stats [rowMemphis]))%Qc
  ∧ stats [rowNashville; rowMemphis] = stats [rowMemphis; rowNashville].
Proof.
  apply (X3_stats_additive [rowNashville] [rowMemphis]
           [rowNashville; rowMemphis] [rowMemphis; rowNashville]).
  apply Permutation_swap.
Defined.

(** ** Regional scopes *)

#[global] Instance MSA_str_inj : Inj (=) (=) MSA_str.
Proof. intros [] [] H; (reflexivity || discriminate H). Qed.

Lemma in_scope_region g g0 sec d :
  g ≠ All → msa_category d = MSA_str g0 →
  in_scope g sec d = bool_decide (g = g0) && bool_decide (NAICS2_NAME d = sec).
Proof.
  intros Hg Hd. unfold in_scope.
  rewrite (bool_decide_eq_false_2 (g = All)) by done. rewrite Hd. cbn [orb].
  f_equal. apply bool_decide_ext. split; [by intros ?%(inj MSA_str)|by intros ->].
Qed.

Lemma in_scope_All sec d : in_scope All sec d = bool_decide (NAICS2_NAME d = sec).
Proof. unfold in_scope. by rewrite bool_decide_eq_true_2. Qed.

Lemma stats_cons d rows :
  stats (d :: rows)
  = stats_plus (mkStats (n_weighted d) (n_weighted_low_wage d)
                        (n_weighted_underemployed d) (n_weighted_stalled d))
               (stats rows).
Proof. by rewrite !stats_sums. Qed.

Lemma regional_stats_cons d rows sec g0 :
  g0 ∈ regions → msa_category d = MSA_str g0 →
  regional_stats (d :: rows) sec
  = if bool_decide (NAICS2_NAME d = sec)
    then stats_plus (mkStats (n_weighted d) (n_weighted_low_wage d)
                             (n_weighted_underemployed d) (n_weighted_stalled d))
                    (regional_stats rows sec)
    else regional_stats rows sec.
Proof.
  intros Hg0 Hd. unfold regional_stats, regions, filteredByScope.
  cbn [foldr List.filter].
  rewrite !(in_scope_region _ g0 sec d) by done.
  destruct (bool_decide (NAICS2_NAME d = sec)); [|by rewrite !andb_false_r].
  rewrite !andb_true_r.
  unfold regions in Hg0.
  repeat (apply elem_of_cons in Hg0 as [->|Hg0];
          [repeat case_bool_decide; try done;
           rewrite stats_cons; unfold stats_plus; cbn [total lw ue st];
           f_equal; ring|]).
  by apply elem_of_nil in Hg0.
Qed.

Lemma regional_scopes_cons d rows sec g0 :
  g0 ∈ regions → msa_category d = MSA_str g0 →
  regional_scopes (d :: rows) sec
  ≡ₚ if bool_decide (NAICS2_NAME d = sec)
     then d :: regional_scopes rows sec
     else regional_scopes rows sec.
Proof.
  intros Hg0 Hd. unfold regional_scopes, regions, filteredByScope.
  cbn [foldr List.filter].
  rewrite !(in_scope_region _ g0 sec d) by done.
  destruct (bool_decide (NAICS2_NAME d = sec)); [|by rewrite !andb_false_r].
  rewrite !andb_true_r.
  unfold regions in Hg0.
  repeat (apply elem_of_cons in Hg0 as [->|Hg0];
          [repeat case_bool_decide; try done;
           rewrite <-?app_comm_cons; by rewrite <-?Permutation_middle|]).
  by apply elem_of_nil in Hg0.
Qed.

Lemma regional_scope_unique d sec g g' :
  g ∈ regions → g' ∈ regions →
  in_scope g sec d = true → in_scope g' sec d = true → g = g'.
Proof.
  assert (∀ r, r ∈ regions → r ≠ All) as Hne.
  { intros r Hr ->. unfold regions in Hr. rewrite !elem_of_cons in Hr.
    by destruct Hr as [?|[?|[?|[?|[?|[?|?%elem_of_nil]]]]]]. }
  intros Hg Hg' [_ [?|H1]]%in_scope_spec [_ [?|H2]]%in_scope_spec.
  - by destruct (Hne g Hg).
  - by destruct (Hne g Hg).
  - by destruct (Hne g' Hg').
  - apply (inj MSA_str). by rewrite <-H1, <-H2.
Qed.

(** X4. When every row carries one of the six region names, the six regional
    scopes of a sector split its statewide scope: taken together they hold
    the rows of the statewide scope, each as often as it occurs there, and no
    row is in scope of two regions.  Over exact arithmetic the stats of the
    statewide scope are therefore the sums of the stats of the six regional
    scopes.  A row with any other region name, such as the empty one the
    loader gives a record without a region, is in scope of no region and is
    counted statewide only. *)
Theorem X4_regions_partition_statewide (rows : list DataRow) (sec : string) :
  Forall (λ d, msa_category d ∈ map MSA_str regions) rows →
  filteredByScope rows All sec ≡ₚ regional_scopes rows sec
  ∧ (∀ d g g', g ∈ regions → g' ∈ regions →
               in_scope g sec d = true → in_scope g' sec d = true → g = g')
  ∧ stats (filteredByScope rows All sec) = regional_stats rows sec
  ∧ ∀ d g, msa_category d ∉ map MSA_str regions → g ≠ All →
           in_scope g sec d = false
           ∧ in_scope All sec d = bool_decide (NAICS2_NAME d = sec).
Proof.
  intros Hrows. split; [|split; [|split]].
  - induction Hrows as [|d rows Hd Hrows IH]; [done|].
    apply list_elem_of_fmap in Hd as (g0 & Hd & Hg0).
    rewrite (regional_scopes_cons d rows sec g0 Hg0 Hd).
    unfold filteredByScope in *. cbn [List.filter]. rewrite in_scope_All.
    destruct (bool_decide (NAICS2_NAME d = sec)); [|done].
    by rewrite IH.
  - intros d g g'. apply regional_scope_unique.
  - induction Hrows as [|d rows Hd Hrows IH]; [done|].
    apply list_elem_of_fmap in Hd as (g0 & Hd & Hg0).
    rewrite (regional_stats_cons d rows sec g0 Hg0 Hd).
    unfold filteredByScope in *. cbn [List.filter]. rewrite in_scope_All.
    destruct (bool_decide (NAICS2_NAME d = sec)); [|done].
    by rewrite stats_cons, IH.
  - intros d g Hd Hg. split; [|apply in_scope_All].
    apply not_true_is_false. rewrite in_scope_spec. intros [_ [?|Hm]]; [done|].
    apply Hd. rewrite Hm. apply list_elem_of_fmap_2.
    unfold regions. destruct g; try done; rewrite !elem_of_cons; tauto.
Qed.

Lemma X4_regions_partition_statewide_witness :
  filteredByScope [rowNashville; rowMemphis; rowRetail] All "Manufacturing"
  ≡ₚ regional_scopes [rowNashville; rowMemphis; rowRetail] "Manufacturing"
  ∧ stats (filteredByScope [rowNashville; rowMemphis; rowRetail] All "Manufacturing")
    = regional_stats [rowNashville; rowMemphis; rowRetail] "Manufacturing".
Proof.
  assert (Forall (λ d, msa_category d ∈ map MSA_str regions)
                 [rowNashville; rowMemphis; rowRetail]) as H.
  { repeat constructor; compute_done. }
  destruct (X4_regions_partition_statewide
              [rowNashville; rowMemphis; rowRetail] "Manufacturing" H)
    as (Hsplit & _ & Hstats & _).
  split; [exact Hsplit|exact Hstats].
Defined.

(** ** Entries of the breakdowns *)

Lemma edu_entries rows c k v :
  (k, v) ∈ edu (cohortBreakdowns rows c) ↔
  k ∈ map education_level_label rows ∧ v = label_sum education_level_label c rows k.
Proof.
  unfold cohortBreakdowns. cbn [edu].
  by rewrite Array_sort_perm, Object_entries_perm, t_edu_tables, table_entries.
Qed.

Lemma age_entries rows c k v :
  (k, v) ∈ age (cohortBreakdowns rows c) ↔
  k ∈ map age_group rows ∧ v = label_sum age_group c rows k.
Proof.
  unfold cohortBreakdowns. cbn [age].
  by rewrite Array_sort_perm, Object_entries_perm, t_age_tables, table_entries.
Qed.

Lemma occ_entries rows c k v :
  (k, v) ∈ occ (cohortBreakdowns rows c) ↔
  k ∈ map soc_2019_5_acs_name rows
  ∧ v = label_sum soc_2019_5_acs_name c rows k ∧ (0 < v)%Qc.
Proof.
  unfold cohortBreakdowns. cbn [occ].
  rewrite list_elem_of_In, filter_In, <-list_elem_of_In.
  rewrite Array_sort_perm, Object_entries_perm, t_occ_tables, table_entries.
  cbn [snd]. rewrite bool_decide_eq_true. tauto.
Qed.

Lemma List_filter_sublist {A} (p : A → bool) (l : list A) : List.filter p l `sublist_of` l.
Proof.
  induction l as [|x l IH]; simpl; [done|].
  destruct (p x); by constructor.
Qed.

Lemma edu_keys_NoDup rows c : NoDup (edu (cohortBreakdowns rows c)).*1.
Proof.
  unfold cohortBreakdowns. cbn [edu].
  rewrite Array_sort_perm, Object_entries_perm, t_edu_tables.
  apply nodup_tally, NoDup_nil_2.
Qed.

Lemma age_keys_NoDup rows c : NoDup (age (cohortBreakdowns rows c)).*1.
Proof.
  unfold cohortBreakdowns. cbn [age].
  rewrite Array_sort_perm, Object_entries_perm, t_age_tables.
  apply nodup_tally, NoDup_nil_2.
Qed.

Lemma occ_keys_NoDup rows c : NoDup (occ (cohortBreakdowns rows c)).*1.
Proof.
  unfold cohortBreakdowns. cbn [occ].
  set (sorted := Array_sort by_weight_desc (Object_entries (t_occ (tables rows c)))).
  assert (NoDup sorted.*1) as Hnd.
  { unfold sorted. rewrite Array_sort_perm, Object_entries_perm, t_occ_tables.
    apply nodup_tally, NoDup_nil_2. }
  apply (sublist_NoDup _ _ Hnd), (fmap_sublist fst), List_filter_sublist.
Qed.

Lemma keys_remove_dups (l : list (string * Qc)) (labels : list string) :
  NoDup l.*1 → (∀ k, k ∈ l.*1 ↔ k ∈ labels) → l.*1 ≡ₚ remove_dups labels.
Proof.
  intros Hnd Hin. apply NoDup_Permutation; [done|apply NoDup_remove_dups|].
  intros k. by rewrite Hin, elem_of_remove_dups.
Qed.

(** X5. No breakdown lists a label twice.  The education and the age
    breakdown have one entry for every distinct label of the scoped rows,
    whatever its weight; the occupation breakdown has one for every
    occupation whose summed cohort weight is positive. *)
Theorem X5_breakdown_labels_unique (rows : list DataRow) (c : CohortType) :
  NoDup (edu (cohortBreakdowns rows c)).*1
  ∧ NoDup (age (cohortBreakdowns rows c)).*1
  ∧ NoDup (occ (cohortBreakdowns rows c)).*1
  ∧ (edu (cohortBreakdowns rows c)).*1 ≡ₚ remove_dups (map education_level_label rows)
  ∧ (age (cohortBreakdowns rows c)).*1 ≡ₚ remove_dups (map age_group rows)
  ∧ (∀ k, k ∈ (occ (cohortBreakdowns rows c)).*1 ↔
          k ∈ map soc_2019_5_acs_name rows
          ∧ (0 < label_sum soc_2019_5_acs_name c rows k)%Qc).
Proof.
  split; [apply edu_keys_NoDup|]. split; [apply age_keys_NoDup|].
  split; [apply occ_keys_NoDup|]. split; [|split].
  - apply keys_remove_dups; [apply edu_keys_NoDup|]. intros k.
    rewrite list_elem_of_fmap. split.
    + intros ([k' v] & -> & Hin). by apply edu_entries in Hin as [? _].
    + intros Hk. eexists (k, _). split; [done|]. by apply edu_entries.
  - apply keys_remove_dups; [apply age_keys_NoDup|]. intros k.
    rewrite list_elem_of_fmap. split.
    + intros ([k' v] & -> & Hin). by apply age_entries in Hin as [? _].
    + intros Hk. eexists (k, _). split; [done|]. by apply age_entries.
  - intros k. rewrite list_elem_of_fmap. split.
    + intros ([k' v] & -> & Hin). apply occ_entries in Hin as (? & -> & ?). done.
    + intros [Hk Hpos]. eexists (k, _). split; [done|]. by apply occ_entries.
Qed.

#[global] Instance label_sum_perm key c : Proper ((≡ₚ) ==> (=) ==> (=)) (label_sum key c).
Proof.
  intros l l' Hl k ? <-.
  induction Hl as [|x l l' _ IH|x y l|l1 l2 l3 _ IH1 _ IH2]; cbn [label_sum foldr].
  - done.
  - fold (label_sum key c l k). fold (label_sum key c l' k). by rewrite IH.
  - repeat case_decide; ring.
  - by rewrite IH1.
Qed.

Lemma label_sum_nonneg key c rows k :
  Forall (λ d, 0 ≤ cohortWeight c d)%Qc rows → (0 ≤ label_sum key c rows k)%Qc.
Proof.
  induction 1 as [|d rows Hd Hrows IH]; cbn [label_sum foldr]; [done|].
  fold (label_sum key c rows k). case_decide; [|done].
  by apply Qcplus_nonneg_nonneg.
Qed.

Lemma label_sum_pos key c rows k :
  Forall (λ d, 0 ≤ cohortWeight c d)%Qc rows →
  (0 < label_sum key c rows k)%Qc ↔
  ∃ d, d ∈ rows ∧ key d = k ∧ (0 < cohortWeight c d)%Qc.
Proof.
  induction 1 as [|d rows Hd Hrows IH]; cbn [label_sum foldr].
  - split; [by intros ?%Qclt_not_eq|]. by intros (d & ?%elem_of_nil & _).
  - fold (label_sum key c rows k).
    pose proof (label_sum_nonneg key c rows k Hrows) as Hsum.
    split.
    + intros Hpos.
      destruct (decide (0 < label_sum key c rows k)%Qc) as [Hrest|Hrest].
      { apply IH in Hrest as (d' & Hin & Hk & Hw). exists d'.
        split; [by apply list_elem_of_further|done]. }
      assert (label_sum key c rows k = 0%Qc) as Hz.
      { apply Qcle_antisym; [by apply Qcnot_lt_le|done]. }
      rewrite Hz in Hpos. case_decide as Hk; [|by apply Qclt_not_eq in Hpos].
      rewrite Qcplus_0_r in Hpos. exists d. split; [apply list_elem_of_here|done].
    + intros (d' & Hin & Hk & Hw). apply elem_of_cons in Hin as [->|Hin].
      * rewrite decide_True by done. by apply Qcplus_pos_nonneg.
      * assert (0 < label_sum key c rows k)%Qc as Hrest by (apply IH; eauto).
        case_decide; [by apply Qcplus_nonneg_pos|done].
Qed.

Lemma occ_keys rows c k :
  Forall nonneg_weights rows →
  k ∈ (occ (cohortBreakdowns rows c)).*1 ↔
  ∃ d, d ∈ rows ∧ soc_2019_5_acs_name d = k ∧ (0 < cohortWeight c d)%Qc.
Proof.
  intros Hrows%(cohortWeights_nonneg c). rewrite list_elem_of_fmap. split.
  - intros ([k' v] & -> & Hin). apply occ_entries in Hin as (_ & -> & Hpos).
    by apply label_sum_pos in Hpos.
  - intros Hd. apply (label_sum_pos soc_2019_5_acs_name) in Hd as Hpos; [|done].
    destruct Hd as (d & Hin & <- & _).
    eexists (_, _). split; [done|]. apply occ_entries.
    split; [by apply (list_elem_of_fmap_2 soc_2019_5_acs_name)|done].
Qed.

(** X6. Which labels a breakdown lists does not depend on the order of the
    scoped rows: the education and the age breakdown list the labels of the
    rows, and with non-negative weights the occupation breakdown lists the
    occupations that have a row of positive cohort weight.  Over exact
    arithmetic the weights do not depend on the order either: each breakdown
    of the reordered rows holds the same (label, weight) pairs. *)
Theorem X6_breakdowns_row_order (rows rows' : list DataRow) (c : CohortType) :
  rows ≡ₚ rows' →
  let b := cohortBreakdowns rows c in
  let b' := cohortBreakdowns rows' c in
  ((edu b).*1 ≡ₚ (edu b').*1 ∧ (age b).*1 ≡ₚ (age b').*1)
  ∧ (Forall nonneg_weights rows →
     (occ b).*1 ≡ₚ (occ b').*1
     ∧ ∀ k, k ∈ (occ b).*1 ↔
            ∃ d, d ∈ rows ∧ soc_2019_5_acs_name d = k ∧ (0 < cohortWeight c d)%Qc)
  ∧ (edu b ≡ₚ edu b' ∧ age b ≡ₚ age b' ∧ occ b ≡ₚ occ b').
Proof.
  intros Hperm b b'. subst b b'.
  assert (edu (cohortBreakdowns rows c) ≡ₚ edu (cohortBreakdowns rows' c)
          ∧ age (cohortBreakdowns rows c) ≡ₚ age (cohortBreakdowns rows' c)
          ∧ occ (cohortBreakdowns rows c) ≡ₚ occ (cohortBreakdowns rows' c))
    as (Hedu & Hage & Hocc).
  { repeat split.
    - apply NoDup_Permutation;
        [eapply NoDup_fmap_1, edu_keys_NoDup|eapply NoDup_fmap_1, edu_keys_NoDup|].
      intros [k v]. by rewrite !edu_entries, Hperm.
    - apply NoDup_Permutation;
        [eapply NoDup_fmap_1, age_keys_NoDup|eapply NoDup_fmap_1, age_keys_NoDup|].
      intros [k v]. by rewrite !age_entries, Hperm.
    - apply NoDup_Permutation;
        [eapply NoDup_fmap_1, occ_keys_NoDup|eapply NoDup_fmap_1, occ_keys_NoDup|].
      intros [k v]. by rewrite !occ_entries, Hperm. }
  split; [|split; [|done]].
  - by rewrite Hedu, Hage.
  - intros Hrows. split; [by rewrite Hocc|]. intros k. by apply occ_keys.
Qed.

Lemma X6_breakdowns_row_order_witness :
  (occ (cohortBreakdowns [rowNashville; rowMemphis] Stalled)).*1
    ≡ₚ (occ (cohortBreakdowns [rowMemphis; rowNashville] Stalled)).*1
  ∧ edu (cohortBreakdowns [rowNashville; rowMemphis] Stalled)
    ≡ₚ edu (cohortBreakdowns [rowMemphis; rowNashville] Stalled)
  ∧ age (cohortBreakdowns [rowNashville; rowMemphis] Stalled)
    ≡ₚ age (cohortBreakdowns [rowMemphis; rowNashville] Stalled)
  ∧ occ (cohortBreakdowns [rowNashville; rowMemphis] Stalled)
    ≡ₚ occ (cohortBreakdowns [rowMemphis; rowNashville] Stalled).
Proof.
  assert (Forall nonneg_weights [rowNashville; rowMemphis]) as H.
  { repeat constructor; by vm_compute. }
  destruct (X6_breakdowns_row_order [rowNashville; rowMemphis] [rowMemphis; rowNashville]
              Stalled (Permutation_swap _ _ _))
    as (_ & Hkeys & Hentries).
  split; [exact (proj1 (Hkeys H))|exact Hentries].
Defined.

(** ** The ordering law of the education and age breakdowns *)

Lemma indexOf_from_lookup i arr (p : nat) x :
  NoDup arr → arr !! p = Some x → indexOf_from i arr x = i + Z.of_nat p.
Proof.
  revert i p. induction arr as [|y arr IH]; intros i p Hnd Hp; [done|].
  apply NoDup_cons in Hnd as [Hy Hnd]. cbn [indexOf_from].
  destruct p as [|p]; cbn in Hp.
  - inversion Hp; subst. rewrite decide_True by done. lia.
  - rewrite decide_False.
    + rewrite (IH (i + 1) p Hnd Hp). lia.
    + intros ->. apply Hy. by eapply list_elem_of_lookup_2.
Qed.

Lemma indexOf_lookup arr (p : nat) x :
  NoDup arr → arr !! p = Some x → indexOf arr x = Z.of_nat p.
Proof. intros Hnd Hp. unfold indexOf. by rewrite (indexOf_from_lookup 0 arr p x). Qed.

Lemma by_order_law order l (i j p q : nat) a b :
  NoDup order →
  Array_sort (by_order order) l !! i = Some a →
  Array_sort (by_order order) l !! j = Some b →
  order !! p = Some a.1 → order !! q = Some b.1 → (p < q)%nat → (i < j)%nat.
Proof.
  intros Hnd Ha Hb Hp Hq Hpq.
  apply (indexOf_lookup _ _ _ Hnd) in Hp, Hq.
  destruct (decide (i < j)%nat) as [|Hge]; [done|]. exfalso.
  destruct (decide (i = j)) as [->|Hne].
  - rewrite Ha in Hb. inversion Hb; subst. lia.
  - assert (index_le order b a) as Hle.
    { eapply (StronglySorted_lookup _ _ j i); [apply by_order_sorted|done..|lia]. }
    unfold index_le in Hle. lia.
Qed.

(** X7. The education and the age breakdown follow their taxonomy: when the
    label of one entry precedes the label of another in the ordering table,
    the first entry precedes the second in the breakdown. *)
Theorem X7_taxonomy_order (rows : list DataRow) (c : CohortType) (i j p q : nat)
    (a b : string * Qc) :
  (p < q)%nat →
  (edu (cohortBreakdowns rows c) !! i = Some a →
   edu (cohortBreakdowns rows c) !! j = Some b →
   EDUCATION_ORDER !! p = Some a.1 → EDUCATION_ORDER !! q = Some b.1 → (i < j)%nat)
  ∧ (age (cohortBreakdowns rows c) !! i = Some a →
     age (cohortBreakdowns rows c) !! j = Some b →
     AGE_GROUPS !! p = Some a.1 → AGE_GROUPS !! q = Some b.1 → (i < j)%nat).
Proof.
  intros Hpq. unfold cohortBreakdowns. cbn [edu age]. split; intros Ha Hb Hp Hq.
  - eapply (by_order_law EDUCATION_ORDER); [|done..]. compute_done.
  - eapply (by_order_law AGE_GROUPS); [|done..]. compute_done.
Qed.

Lemma X7_taxonomy_order_witness :
  edu (cohortBreakdowns [rowMemphis; rowNashville] LowWage) !! 0%nat
    = Some ("HS diploma/GED", qz 100)
  ∧ edu (cohortBreakdowns [rowMemphis; rowNashville] LowWage) !! 1%nat
    = Some ("Some college", qz 200)
  ∧ (0 < 1)%nat.
Proof.
  assert (edu (cohortBreakdowns [rowMemphis; rowNashville] LowWage) !! 0%nat
          = Some ("HS diploma/GED", qz 100)) as H0 by compute_done.
  assert (edu (cohortBreakdowns [rowMemphis; rowNashville] LowWage) !! 1%nat
          = Some ("Some college", qz 200)) as H1 by compute_done.
  split; [exact H0|]. split; [exact H1|].
  apply (proj1 (X7_taxonomy_order [rowMemphis; rowNashville] LowWage 0 1 1 2
                  ("HS diploma/GED", qz 100) ("Some college", qz 200) ltac:(lia)));
    [exact H0|exact H1|reflexivity|reflexivity].
Defined.

(** ** Bars *)

Lemma Qc_div_mul (v m : Qc) : m ≠ 0%Qc → (v / m * m)%Qc = v.
Proof. intros Hm. rewrite Qcmult_comm. by apply Qcmult_div_r. Qed.

Lemma Qc_ratio_bounds (v m : Qc) :
  (0 < m)%Qc → (0 ≤ v)%Qc → (v ≤ m)%Qc → (0 ≤ v / m * qz 100 ≤ qz 100)%Qc.
Proof.
  intros Hm Hv Hvm.
  assert (m ≠ 0%Qc) as Hm0 by (intros ->; by apply Qclt_not_eq in Hm).
  assert (0 ≤ qz 100)%Qc as H100 by done.
  assert (0 ≤ v / m)%Qc as Hlo.
  { apply (Qcmult_lt_0_le_reg_r _ _ m Hm). by rewrite Qcmult_0_l, Qc_div_mul. }
  assert (v / m ≤ 1)%Qc as Hhi.
  { apply (Qcmult_lt_0_le_reg_r _ _ m Hm). by rewrite Qcmult_1_l, Qc_div_mul. }
  split.
  - rewrite <-(Qcmult_0_l (qz 100)). by apply Qcmult_le_compat_r.
  - rewrite <-(Qcmult_1_l (qz 100)) at 2. by apply Qcmult_le_compat_r.
Qed.

Lemma Math_max_from (l : list Qc) (q : Qc) :
  ∃ m, fold_left
         (λ m v,
           match m with
           | Fin q => if decide (q < v)%Qc then Fin v else Fin q
           | NegInf => Fin v
           | other => other
           end) l (Fin q) = Fin m
       ∧ m ∈ q :: l ∧ Forall (λ v, v ≤ m)%Qc (q :: l).
Proof.
  revert q. induction l as [|v l IH]; intros q; cbn [fold_left].
  - exists q. split; [done|]. split; [apply list_elem_of_here|].
    constructor; [done|constructor].
  - case_decide as Hlt.
    + destruct (IH v) as (m & Hm & Hin & Hle). exists m. split; [done|].
      apply Forall_cons in Hle as [Hvm Hle].
      split; [by apply list_elem_of_further|].
      constructor; [|by constructor].
      apply Qclt_le_weak. by eapply Qclt_le_trans.
    + destruct (IH q) as (m & Hm & Hin & Hle). exists m. split; [done|].
      apply Forall_cons in Hle as [Hqm Hle]. split.
      * apply elem_of_cons in Hin as [->|Hin];
          [apply list_elem_of_here|by do 2 apply list_elem_of_further].
      * constructor; [done|]. constructor; [|done].
        apply Qcnot_lt_le in Hlt. by eapply Qcle_trans.
Qed.

Lemma Math_max_spec (l : list Qc) :
  match l with
  | [] => Math_max l = NegInf
  | _ => ∃ m, Math_max l = Fin m ∧ m ∈ l ∧ Forall (λ v, v ≤ m)%Qc l
  end.
Proof. destruct l as [|q l]; [done|]. apply Math_max_from. Qed.

Lemma barWidth_percent (l : list Qc) (v : Qc) :
  v ∈ l → (0 ≤ v)%Qc → percent (barWidth v (Math_max l)).
Proof.
  intros Hv Hnn. pose proof (Math_max_spec l) as Hmax.
  destruct l as [|x l]; [by apply elem_of_nil in Hv|].
  destruct Hmax as (m & -> & _ & Hle).
  rewrite Forall_forall in Hle. specialize (Hle v Hv).
  unfold barWidth, jsgt. case_bool_decide as Hm.
  - cbn [jsdiv_by]. unfold jsdiv. rewrite decide_False.
    + eexists. split; [done|]. by apply Qc_ratio_bounds.
    + intros ->. by apply Qclt_not_eq in Hm.
  - exists 0%Qc. done.
Qed.

Lemma barWidth_full (m : Qc) : (0 < m)%Qc → barWidth m (Fin m) = Fin (qz 100).
Proof.
  intros Hm. assert (m ≠ 0%Qc) as Hm0 by (intros ->; by apply Qclt_not_eq in Hm).
  unfold barWidth, jsgt. rewrite bool_decide_eq_true_2 by done.
  cbn [jsdiv_by]. unfold jsdiv. rewrite decide_False by done. cbn [jsmul_pos].
  f_equal. unfold Qcdiv. rewrite Qcmult_inv_r by done. apply Qcmult_1_l.
Qed.

Lemma barWidths_percent (l : list (string * Qc)) :
  Forall (λ e, 0 ≤ e.2)%Qc l → Forall percent (barWidths l).
Proof.
  intros Hl. unfold barWidths. apply Forall_fmap, Forall_forall. intros e He.
  apply barWidth_percent.
  - by apply (list_elem_of_fmap_2 snd).
  - rewrite Forall_forall in Hl. by apply Hl.
Qed.

Lemma edu_nonneg rows c :
  Forall nonneg_weights rows → Forall (λ e, 0 ≤ e.2)%Qc (edu (cohortBreakdowns rows c)).
Proof.
  intros Hrows. unfold cohortBreakdowns. cbn [edu].
  rewrite Array_sort_perm, Object_entries_perm, t_edu_tables.
  apply nonneg_tally; [by apply cohortWeights_nonneg|constructor].
Qed.

Lemma age_nonneg rows c :
  Forall nonneg_weights rows → Forall (λ e, 0 ≤ e.2)%Qc (age (cohortBreakdowns rows c)).
Proof.
  intros Hrows. unfold cohortBreakdowns. cbn [age].
  rewrite Array_sort_perm, Object_entries_perm, t_age_tables.
  apply nonneg_tally; [by apply cohortWeights_nonneg|constructor].
Qed.

Lemma occ_positive rows c : Forall (λ e, 0 < e.2)%Qc (occ (cohortBreakdowns rows c)).
Proof.
  apply Forall_forall. intros [k v] He. by apply occ_entries in He as (_ & _ & ?).
Qed.

Lemma occ_top_is_max rows c top rest :
  occ (cohortBreakdowns rows c) = top :: rest →
  Math_max (map snd (occ (cohortBreakdowns rows c))) = Fin top.2.
Proof.
  intros Hocc. pose proof (occ_sorted rows c) as Hs. rewrite Hocc in Hs |- *.
  apply StronglySorted_cons in Hs as [Htop _].
  pose proof (Math_max_spec (map snd (top :: rest))) as (m & -> & Hin & Hle).
  f_equal. apply (anti_symm Qcle).
  - cbn [map] in Hin. apply elem_of_cons in Hin as [->|Hin]; [done|].
    apply list_elem_of_fmap in Hin as (e & -> & He).
    rewrite Forall_forall in Htop. by apply Htop.
  - cbn [map] in Hle. by apply Forall_cons in Hle as [? _].
Qed.

Lemma barWidths_all_zero (l : list (string * Qc)) :
  Forall (λ e, e.2 = 0%Qc) l → Forall (λ w, w = Fin 0%Qc) (barWidths l).
Proof.
  intros Hl. unfold barWidths. apply Forall_fmap, Forall_forall. intros e He.
  cbn. pose proof (Math_max_spec (map snd l)) as Hmax.
  destruct (map snd l) as [|x xs] eqn:Hvals.
  - by rewrite Hmax.
  - destruct Hmax as (m & -> & Hin & _). rewrite <-Hvals in Hin.
    apply list_elem_of_fmap in Hin as (e' & -> & He').
    rewrite Forall_forall in Hl. rewrite (Hl e' He').
    unfold barWidth, jsgt. by rewrite bool_decide_eq_false_2.
Qed.

(** X8. With non-negative weights every bar of a breakdown, in the live view
    and in the report, has a finite width between 0 and 100 percent; the first
    occupation bar is exactly 100 percent wide; and on a cohort of total
    weight zero the education and age bars are 0 percent wide: the guard
    [max > 0] keeps the division by zero away. *)
Theorem X8_bar_widths (rows : list DataRow) (c : CohortType) :
  Forall nonneg_weights rows →
  let b := cohortBreakdowns rows c in
  Forall percent (barWidths (edu b))
  ∧ Forall percent (barWidths (age b))
  ∧ Forall percent (barWidths (occ b))
  ∧ Forall percent (topOccupationBars b)
  ∧ (occ b ≠ [] → topOccupationBars b !! 0%nat = Some (Fin (qz 100)))
  ∧ (totalCohort b = 0%Qc →
     Forall (λ w, w = Fin 0%Qc) (barWidths (edu b))
     ∧ Forall (λ w, w = Fin 0%Qc) (barWidths (age b))).
Proof.
  intros Hrows b. subst b.
  assert (Forall (λ e, 0 ≤ e.2)%Qc (occ (cohortBreakdowns rows c))) as Hocc.
  { eapply Forall_impl; [apply occ_positive|]. intros e. apply Qclt_le_weak. }
  split; [by apply barWidths_percent, edu_nonneg|].
  split; [by apply barWidths_percent, age_nonneg|].
  split; [by apply barWidths_percent|].
  split; [|split].
  - unfold topOccupationBars. apply Forall_fmap, Forall_forall. intros e He.
    apply elem_of_take in He as (i & He & _). apply list_elem_of_lookup_2 in He.
    apply barWidth_percent; [by apply (list_elem_of_fmap_2 snd)|].
    rewrite Forall_forall in Hocc. by apply Hocc.
  - intros Hne. destruct (occ (cohortBreakdowns rows c)) as [|top rest] eqn:Ho; [done|].
    unfold topOccupationBars. rewrite (occ_top_is_max rows c top rest Ho), Ho.
    cbn [take map lookup list_lookup]. f_equal.
    apply barWidth_full.
    pose proof (occ_positive rows c) as Hp. rewrite Ho in Hp.
    by apply Forall_cons in Hp as [? _].
  - intros Hzero. split; apply barWidths_all_zero.
    + by apply edu_all_zero.
    + by apply age_all_zero.
Qed.

Lemma X8_bar_widths_witness :
  barWidths (occ (cohortBreakdowns [rowNashville; rowMemphis] AllStranded))
    = [Fin (qz 100); Fin (Q2Qc (225 # 4))]
  ∧ Forall percent (barWidths (edu (cohortBreakdowns [rowNashville; rowMemphis] AllStranded))).
Proof.
  split; [compute_done|].
  apply (X8_bar_widths [rowNashville; rowMemphis] AllStranded).
  repeat constructor; by vm_compute.
Defined.

(** ** Target group profile *)

Lemma find_by_key (l : list (string * Qc)) k v :
  NoDup l.*1 → (k, v) ∈ l →
  List.find (λ d, bool_decide (Some d.1 = Some k)) l = Some (k, v).
Proof.
  induction l as [|[k0 v0] l IH]; cbn [fmap list_fmap fst List.find]; intros Hnd Hin.
  - by apply elem_of_nil in Hin.
  - apply NoDup_cons in Hnd as [Hk0 Hnd].
    apply elem_of_cons in Hin as [[= <- <-]|Hin].
    + by rewrite bool_decide_eq_true_2.
    + rewrite bool_decide_eq_false_2; [by apply IH|].
      intros [= ->]. apply Hk0. by apply (list_elem_of_fmap_2 fst) in Hin.
Qed.

Lemma find_by_key_absent (l : list (string * Qc)) (target : option string) :
  (∀ k, target = Some k → k ∉ l.*1) →
  List.find (λ d, bool_decide (Some d.1 = target)) l = None.
Proof.
  induction l as [|[k0 v0] l IH]; cbn [fmap list_fmap fst List.find]; intros Hk; [done|].
  rewrite bool_decide_eq_false_2.
  - apply IH. intros k Ht Hin. apply (Hk k Ht). by apply list_elem_of_further.
  - intros Ht. apply (Hk k0); [done|]. apply list_elem_of_here.
Qed.

Lemma poolSize_entry rows c o v :
  (o, v) ∈ occ (cohortBreakdowns rows c) →
  poolSize (Some o) (cohortBreakdowns rows c) = v ∧ (0 < v)%Qc.
Proof.
  intros Hin. unfold poolSize.
  rewrite (find_by_key _ o v (occ_keys_NoDup rows c) Hin).
  apply occ_entries in Hin as (_ & _ & Hpos). split; [|done].
  cbn. case_decide as Hz; [|done]. rewrite Hz in Hpos. by apply Qclt_not_eq in Hpos.
Qed.

Lemma poolSize_absent rows c (target : option string) :
  (∀ o, target = Some o → o ∉ (occ (cohortBreakdowns rows c)).*1) →
  poolSize target (cohortBreakdowns rows c) = 0%Qc.
Proof. intros Ht. unfold poolSize. by rewrite find_by_key_absent. Qed.

(** What the pool shows: the weight of an occupation entry, or 0. *)
Lemma poolSize_cases rows c (target : option string) :
  poolSize target (cohortBreakdowns rows c) = 0%Qc
  ∨ ∃ o v, target = Some o ∧ (o, v) ∈ occ (cohortBreakdowns rows c)
           ∧ poolSize target (cohortBreakdowns rows c) = v ∧ (0 < v)%Qc.
Proof.
  destruct target as [o|]; [|left; by apply poolSize_absent].
  destruct (decide (o ∈ (occ (cohortBreakdowns rows c)).*1)) as [Hin|Hnin].
  - right. apply list_elem_of_fmap in Hin as ([o' v] & -> & Hin).
    exists o', v. destruct (poolSize_entry rows c o' v Hin). done.
  - left. apply poolSize_absent. by intros ? [= <-].
Qed.

(** X9. "Total Workers in Pool" is the weight the occupation breakdown holds
    for the target occupation, a positive number, and 0 when no target is
    set or the target is not in the breakdown on display.  It is never
    negative and never above the weight of the first entry of the occupation
    breakdown, the largest. *)
Theorem X9_pool_size (rows : list DataRow) (c : CohortType) (target : option string) :
  let b := cohortBreakdowns rows c in
  poolSize None b = 0%Qc
  ∧ (∀ o v, (o, v) ∈ occ b → poolSize (Some o) b = v ∧ (0 < v)%Qc)
  ∧ (∀ o, o ∉ (occ b).*1 → poolSize (Some o) b = 0%Qc)
  ∧ (0 ≤ poolSize target b)%Qc
  ∧ (∀ top rest, occ b = top :: rest → (poolSize target b ≤ top.2)%Qc).
Proof.
  intros b. subst b.
  split; [by apply poolSize_absent|]. split; [apply poolSize_entry|].
  split; [intros o Ho; apply poolSize_absent; by intros ? [= <-]|].
  split.
  - destruct (poolSize_cases rows c target) as [->|(o & v & _ & _ & -> & Hpos)];
      [done|by apply Qclt_le_weak].
  - intros top rest Hocc.
    pose proof (occ_positive rows c) as Hp. pose proof (occ_sorted rows c) as Hs.
    rewrite Hocc in Hp, Hs.
    apply Forall_cons in Hp as [Htop _]. apply StronglySorted_cons in Hs as [Hle _].
    destruct (poolSize_cases rows c target) as [->|(o & v & _ & Hin & -> & _)];
      [by apply Qclt_le_weak|].
    rewrite Hocc in Hin. apply elem_of_cons in Hin as [<-|Hin]; [done|].
    rewrite Forall_forall in Hle. apply (Hle (o, v) Hin).
Qed.

(** ** Sessions *)

Lemma breakdowns_setTargetOccupation o s :
  breakdowns (setTargetOccupation o s) = breakdowns s.
Proof. reflexivity. Qed.

Lemma falsy_false x : falsy x = false → ∃ o, x = Some o ∧ o ≠ "".
Proof.
  destruct x as [o|]; cbn [falsy]; [|done].
  intros H%bool_decide_eq_false. by exists o.
Qed.

Lemma reachable_settled s : reachable s → autoPopulate s = s.
Proof.
  intros Hs. destruct Hs as [|s ev Hs]; [done|].
  pose proof (handle_ok ev s (reachable_ok s Hs)) as [Hl Ht].
  unfold step, autoPopulate at 2.
  destruct (occ (breakdowns (handle ev s))) as [|top rest] eqn:Hocc.
  - unfold autoPopulate. by rewrite Hocc.
  - destruct (falsy (targetOccupation (handle ev s))) eqn:Hf.
    + unfold autoPopulate. rewrite breakdowns_setTargetOccupation, Hocc.
      cbn [setTargetOccupation targetOccupation falsy].
      rewrite bool_decide_eq_false_2; [by rewrite Hf|].
      apply (occ_label_nonempty (handle ev s) top Hl). rewrite Hocc. apply list_elem_of_here.
    + unfold autoPopulate. by rewrite Hocc, Hf.
Qed.

(** X10. In the states a session settles in, those reached once the effect
    that follows an event's render has run, the effect has nothing left to
    do, and whenever the occupation breakdown lists an occupation a target
    occupation is set, with a label that is not empty.  The render committed
    between an event's handler and the effect is not such a state: right
    after the dataset has loaded it lists occupations and has no target. *)
Theorem X10_target_set_when_listed (s : AppState) :
  reachable s →
  autoPopulate s = s
  ∧ (occ (breakdowns s) ≠ [] → ∃ o, targetOccupation s = Some o ∧ o ≠ "")
  ∧ ∃ s0 ev, reachable s0
             ∧ occ (breakdowns (handle ev s0)) ≠ []
             ∧ targetOccupation (handle ev s0) = None
             ∧ targetOccupation (step s0 ev) ≠ None.
Proof.
  intros Hs. split; [by apply reachable_settled|]. split.
  - destruct Hs as [|s ev Hs]; [done|].
    pose proof (handle_ok ev s (reachable_ok s Hs)) as [Hl Ht].
    unfold step, autoPopulate.
    destruct (occ (breakdowns (handle ev s))) as [|top rest] eqn:Hocc; [by rewrite Hocc|].
    destruct (falsy (targetOccupation (handle ev s))) eqn:Hf.
    + intros _. exists top.1. split; [done|].
      apply (occ_label_nonempty (handle ev s) top Hl). rewrite Hocc. apply list_elem_of_here.
    + intros _. by apply falsy_false.
  - exists initialState, (DataLoaded demoRaw).
    split; [apply reachable_init|]. by vm_compute.
Qed.

Lemma X10_target_set_when_listed_witness :
  autoPopulate demoLoaded = demoLoaded
  ∧ (occ (breakdowns demoLoaded) ≠ [] → ∃ o, targetOccupation demoLoaded = Some o ∧ o ≠ "").
Proof.
  assert (reachable demoLoaded) as H.
  { apply (reachable_run initialState), reachable_init. }
  destruct (X10_target_set_when_listed demoLoaded H) as (Hfix & Hset & _).
  split; [exact Hfix|exact Hset].
Defined.

Lemma occ_label_in_data s e :
  e ∈ occ (breakdowns s) → e.1 ∈ map soc_2019_5_acs_name (rawData s).
Proof.
  intros He. apply occ_labels in He.
  apply list_elem_of_fmap in He as (d & -> & Hd). apply list_elem_of_fmap_2.
  unfold scoped, filteredByScope in Hd.
  by apply list_elem_of_In, filter_In in Hd as [Hd%list_elem_of_In _].
Qed.

Lemma autoPopulate_loaded data s : loaded_with data s → loaded_with data (autoPopulate s).
Proof.
  intros (Hd & Hl & Ht). unfold autoPopulate.
  destruct (occ (breakdowns s)) as [|top rest] eqn:Hocc; [done|].
  destruct (falsy (targetOccupation s)); [|done].
  repeat split; [done..|]. cbn. intros o [= <-]. rewrite <-Hd.
  apply occ_label_in_data. rewrite Hocc. apply list_elem_of_here.
Qed.

Lemma user_event_loaded data ev s :
  user_event ev = true → loaded_with data s → loaded_with data (step s ev).
Proof.
  intros Hev (Hd & Hl & Ht). apply autoPopulate_loaded.
  destruct ev as [raw|g|x|c|i|i]; try discriminate; cbn [handle]; try done.
  destruct (take 10 (occ (breakdowns s)) !! i) as [card|] eqn:Hcard; [|done].
  repeat split; [done..|]. cbn. intros o [= <-]. rewrite <-Hd.
  apply occ_label_in_data.
  apply lookup_take_Some in Hcard as [Hcard _]. by eapply list_elem_of_lookup_2.
Qed.

(** X11. Once the dataset has arrived, no event of the user changes the rows
    or brings the loading state back, and the target occupation, when set,
    is the occupation of some row of the dataset. *)
Theorem X11_dataset_fixed_after_load (raw : list RawRow) (evs : list Event) :
  forallb user_event evs = true →
  let s := run (step initialState (DataLoaded raw)) evs in
  rawData s = mappedData raw
  ∧ isLoading s = false
  ∧ ∀ o, targetOccupation s = Some o →
         o ∈ map soc_2019_5_acs_name (mappedData raw).
Proof.
  intros Hevs s. subst s.
  assert (loaded_with (mappedData raw) (step initialState (DataLoaded raw))) as H0.
  { apply autoPopulate_loaded. by repeat split. }
  revert H0. generalize (step initialState (DataLoaded raw)) as s.
  induction evs as [|ev evs IH]; intros s Hs; [exact Hs|].
  cbn [forallb] in Hevs. apply andb_true_iff in Hevs as [Hev Hevs].
  cbn [run fold_left]. apply (IH Hevs). by apply user_event_loaded.
Qed.

Lemma X11_dataset_fixed_after_load_witness :
  let s := run (step initialState (DataLoaded demoRaw))
               [RegionClick Nashville; OccupationClick 0; CohortClick Stalled; RecClick 2] in
  rawData s = mappedData demoRaw
  ∧ isLoading s = false
  ∧ ∀ o, targetOccupation s = Some o →
         o ∈ map soc_2019_5_acs_name (mappedData demoRaw).
Proof.
  apply (X11_dataset_fixed_after_load demoRaw
           [RegionClick Nashville; OccupationClick 0; CohortClick Stalled; RecClick 2]).
  reflexivity.
Defined.

(** X12. Clicking an occupation card makes its occupation the target and
    leaves the breakdowns as they are; of the cards on display, the clicked
    one alone then carries the target's label. *)
Theorem X12_occupation_click (s : AppState) (i : nat) (card : string * Qc) :
  reachable s →
  take 10 (occ (breakdowns s)) !! i = Some card →
  let s' := step s (OccupationClick i) in
  targetOccupation s' = Some card.1
  ∧ breakdowns s' = breakdowns s
  ∧ ∀ (j : nat) card', take 10 (occ (breakdowns s')) !! j = Some card' →
                       targetOccupation s' = Some card'.1 ↔ j = i.
Proof.
  intros Hs Hcard s'.
  assert (card.1 ≠ "") as Hne.
  { destruct (reachable_ok s Hs) as [Hl _]. apply (occ_label_nonempty s card Hl).
    apply lookup_take_Some in Hcard as [Hcard _]. by eapply list_elem_of_lookup_2. }
  assert (s' = setTargetOccupation (Some card.1) s) as ->.
  { subst s'. unfold step. cbn [handle]. rewrite Hcard.
    by apply (autoPopulate_keeps _ card.1). }
  split; [done|]. split; [done|].
  rewrite breakdowns_setTargetOccupation. cbn [targetOccupation setTargetOccupation].
  intros j card' Hj. split.
  - intros [= Heq].
    assert (NoDup (take 10 (occ (breakdowns s))).*1) as Hnd.
    { rewrite fmap_take. eapply sublist_NoDup; [apply occ_keys_NoDup|apply sublist_take]. }
    rewrite NoDup_alt in Hnd. apply (Hnd j i card.1).
    + rewrite list_lookup_fmap, Hj. cbn. by rewrite Heq.
    + by rewrite list_lookup_fmap, Hcard.
  - intros ->. rewrite Hcard in Hj. by inversion Hj.
Qed.

Lemma X12_occupation_click_witness :
  let s' := step demoLoaded (OccupationClick 1) in
  targetOccupation s' = Some "Machinist"
  ∧ breakdowns s' = breakdowns demoLoaded
  ∧ ∀ (j : nat) card', take 10 (occ (breakdowns s')) !! j = Some card' →
                       targetOccupation s' = Some card'.1 ↔ j = 1%nat.
Proof.
  apply (X12_occupation_click demoLoaded 1 ("Machinist", qz 180)).
  - apply (reachable_run initialState), reachable_init.
  - compute_done.
Defined.

(** ** Percentages in the recommendation texts *)

Lemma total_of_nonneg l : Forall (λ e, 0 ≤ e.2)%Qc l → (0 ≤ total_of l)%Qc.
Proof.
  induction 1 as [|e l He Hl IH]; simpl; [done|]. by apply Qcplus_nonneg_nonneg.
Qed.

Lemma total_of_filter_le (p : string * Qc → bool) l :
  Forall (λ e, 0 ≤ e.2)%Qc l → (total_of (List.filter p l) ≤ total_of l)%Qc.
Proof.
  induction 1 as [|e l He Hl IH]; simpl; [done|].
  destruct (p e); simpl.
  - by apply Qcplus_le_mono_l.
  - etrans; [exact IH|]. rewrite <-(Qcplus_0_l (total_of l)) at 1.
    by apply Qcplus_le_mono_r.
Qed.

Lemma find_le_total (p : string * Qc → bool) l :
  Forall (λ e, 0 ≤ e.2)%Qc l →
  (0 ≤ or0 (snd <$> List.find p l) ≤ total_of l)%Qc.
Proof.
  induction 1 as [|e l He Hl IH]; simpl; [done|].
  pose proof (total_of_nonneg l Hl) as Hnn.
  destruct (p e); simpl.
  - case_decide as Hz.
    + split; [done|]. by apply Qcplus_nonneg_nonneg.
    + split; [done|]. rewrite <-(Qcplus_0_r e.2) at 1. by apply Qcplus_le_mono_l.
  - destruct IH as [IH0 IH1]. split; [done|].
    etrans; [exact IH1|]. rewrite <-(Qcplus_0_l (total_of l)) at 1.
    by apply Qcplus_le_mono_r.
Qed.

Lemma Qfloor_qz (z : Z) : Qfloor (qz z) = z.
Proof. apply Qfloor_Z. Qed.

Lemma pct_bounds (b : Breakdowns) (count t : Qc) :
  (0 ≤ count ≤ totalCohort b)%Qc →
  jsgt (jsdiv count (totalCohort b)) t = true →
  ∃ n : Z, Qfloor (t * qz 100 + Q2Qc (1 # 2))%Qc ≤ n ≤ 100 ∧ pct b count = pretty n.
Proof.
  intros [Hc0 Hct] Hgt. unfold pct. unfold jsdiv in *.
  destruct (decide (totalCohort b = 0%Qc)) as [Hz|Hnz].
  { rewrite Hz in Hct. assert (count = 0%Qc) as -> by (by apply (anti_symm Qcle)).
    by rewrite decide_True in Hgt. }
  cbn [jsgt] in Hgt. apply bool_decide_eq_true in Hgt.
  assert (0 < totalCohort b)%Qc as Hpos.
  { destruct (Qclt_le_dec 0 (totalCohort b)) as [|Hle]; [done|].
    exfalso. apply Hnz. apply (anti_symm Qcle); [done|by etrans]. }
  destruct (Qc_ratio_bounds count (totalCohort b) Hpos Hc0 Hct) as [_ Hhi].
  cbn [jsmul_pos Math_round Number_toString].
  exists (Qfloor (count / totalCohort b * qz 100 + Q2Qc (1 # 2))%Qc).
  rewrite Qfloor_qz. split; [|done]. split.
  - apply Qfloor_resp_le.
    change ((t * qz 100 + Q2Qc (1 # 2) ≤ count / totalCohort b * qz 100 + Q2Qc (1 # 2))%Qc).
    apply Qcplus_le_mono_r, Qcmult_le_compat_r; [by apply Qclt_le_weak|done].
  - change 100 with (Qfloor (qz 100 + Q2Qc (1 # 2))%Qc). apply Qfloor_resp_le.
    change ((count / totalCohort b * qz 100 + Q2Qc (1 # 2) ≤ qz 100 + Q2Qc (1 # 2))%Qc).
    by apply Qcplus_le_mono_r.
Qed.

(** X13. With non-negative weights, a recommendation text that quotes a
    share quotes a whole number of percent: between 60 and 100 in the
    low-education text, between 40 and 100 in the high-education text, between
    15 and 100 in the college-completion text; never NaN or Infinity. *)
Theorem X13_quoted_percentages (rows : list DataRow) (c : CohortType) :
  Forall nonneg_weights rows →
  let b := cohortBreakdowns rows c in
  (isLowEducation b = true →
   ∃ n : Z, 60 ≤ n ≤ 100 ∧ pct b (lowEduCount b) = pretty n)
  ∧ (isHighEducation b = true →
     ∃ n : Z, 40 ≤ n ≤ 100 ∧ pct b (highEduCount b) = pretty n)
  ∧ (hasSomeCollege b = true →
     ∃ n : Z, 15 ≤ n ≤ 100 ∧ pct b (someCollegeCount b) = pretty n).
Proof.
  intros Hrows b.
  pose proof (edu_nonneg rows c Hrows) as Hnn. fold b in Hnn.
  assert (∀ p, 0 ≤ sum_vals (List.filter p (edu b)) ≤ totalCohort b)%Qc as Hfilter.
  { intros p. unfold totalCohort. rewrite !sum_vals_total_of. split.
    - by apply total_of_nonneg, Forall_List_filter.
    - by apply total_of_filter_le. }
  split; [|split].
  - intros H. apply (pct_bounds b (lowEduCount b) (Q2Qc (3 # 5))); [apply Hfilter|done].
  - intros H. apply (pct_bounds b (highEduCount b) (Q2Qc (2 # 5))); [apply Hfilter|done].
  - intros H. apply (pct_bounds b (someCollegeCount b) (Q2Qc (3 # 20))); [|done].
    unfold someCollegeCount, totalCohort. rewrite sum_vals_total_of.
    by apply find_le_total.
Qed.

Lemma X13_quoted_percentages_witness :
  isLowEducation (cohortBreakdowns [rowNashville; rowRetail; rowMasters] LowWage) = true
  ∧ pct (cohortBreakdowns [rowNashville; rowRetail; rowMasters] LowWage)
        (lowEduCount (cohortBreakdowns [rowNashville; rowRetail; rowMasters] LowWage))
    = "96"
  ∧ ∃ n : Z, 60 ≤ n ≤ 100
      ∧ pct (cohortBreakdowns [rowNashville; rowRetail; rowMasters] LowWage)
            (lowEduCount (cohortBreakdowns [rowNashville; rowRetail; rowMasters] LowWage))
        = pretty n.
Proof.
  assert (isLowEducation (cohortBreakdowns [rowNashville; rowRetail; rowMasters] LowWage)
          = true) as Hlow by (by vm_compute).
  split; [exact Hlow|]. split; [by vm_compute|].
  apply (proj1 (X13_quoted_percentages [rowNashville; rowRetail; rowMasters] LowWage
                  ltac:(repeat constructor; by vm_compute)) Hlow).
Defined.

(** ** Number of recommendations *)

(** X14. The recommendation list has four entries, one more when
    [hasSomeCollege] holds and one more when self-employment is viable for
    the target occupation; the report numbers its cards "01", "02", ... in
    list order. *)
Theorem X14_recommendation_count
    (g : MSACategory) (sec : string) (c : CohortType)
    (target : option string) (b : Breakdowns) :
  let recs := recommendations g sec c target b in
  List.length recs
  = (4 + (if hasSomeCollege b then 1 else 0)
       + (if isEntrepreneurshipViable target then 1 else 0))%nat
  ∧ (4 ≤ List.length recs ≤ 6)%nat
  ∧ reportNumbers recs
    = take (List.length recs) ["01"; "02"; "03"; "04"; "05"; "06"].
Proof.
  cbv zeta. rewrite recommendations_shape.
  destruct (hasSomeCollege b), (isEntrepreneurshipViable target);
    (split; [reflexivity|split; [cbn; lia|reflexivity]]).
Qed.

(** ** The map component *)

(** X15. On the map, every region is navy while all of Tennessee is
    selected.  Once a region is selected it is the only navy one; any other
    region is light blue while hovered and has its own base colour
    otherwise, and no two regions share a base colour. *)
Theorem X15_region_fill
    (hoveredRegion : option TennesseeMap.Region) (region : TennesseeMap.Region) :
  TennesseeMap.fill TennesseeMap.AllTennessee hoveredRegion region = "#1E3A8A"
  ∧ (∀ r0, TennesseeMap.fill (TennesseeMap.Selected r0) hoveredRegion region = "#1E3A8A"
           ↔ region = r0)
  ∧ (∀ r0, region ≠ r0 → hoveredRegion = Some region →
           TennesseeMap.fill (TennesseeMap.Selected r0) hoveredRegion region = "#93C5FD")
  ∧ (∀ r0, region ≠ r0 → hoveredRegion ≠ Some region →
           TennesseeMap.fill (TennesseeMap.Selected r0) hoveredRegion region
           = TennesseeMap.baseColors region)
  ∧ (∀ r1 r2, TennesseeMap.baseColors r1 = TennesseeMap.baseColors r2 → r1 = r2).
Proof.
  unfold TennesseeMap.fill, TennesseeMap.getRegionColor.
  split; [done|]. split; [|split; [|split]].
  - intros r0. rewrite decide_False by done. split.
    + case_bool_decide as Hs; [by inversion Hs|].
      case_bool_decide; [done|]. by destruct region.
    + intros ->. by rewrite bool_decide_eq_true_2.
  - intros r0 Hne Hh. rewrite decide_False by done.
    rewrite bool_decide_eq_false_2 by congruence.
    by rewrite bool_decide_eq_true_2.
  - intros r0 Hne Hh. rewrite decide_False by done.
    rewrite bool_decide_eq_false_2 by congruence.
    by rewrite bool_decide_eq_false_2.
  - intros [] [] H; (reflexivity || discriminate H).
Qed.

#[global] Instance Region_str_inj : Inj (=) (=) TennesseeMap.Region_str.
Proof. intros [] [] H; (reflexivity || discriminate H). Qed.

Lemma groups_of_ext acc acc' : (∀ r, acc r = acc' r) → groups_of acc = groups_of acc'.
Proof. intros H. unfold groups_of. apply map_ext. intros r. by rewrite H. Qed.

Lemma group_push_region acc r0 x :
  TennesseeMap.group_push (groups_of acc) (TennesseeMap.Region_str r0) x
  = Some (groups_of (λ r, if decide (r = r0) then acc r ++ [x] else acc r)).
Proof. by destruct r0. Qed.

Lemma group_push_unknown groups k x :
  k ∉ groups.*1 → TennesseeMap.group_push groups k x = None.
Proof.
  induction groups as [|[k' xs] groups IH]; cbn [TennesseeMap.group_push fmap list_fmap fst];
    [done|].
  rewrite not_elem_of_cons. intros [Hne Hk].
  rewrite decide_False by done. by rewrite IH.
Qed.

Lemma regionGroups_failed mapping counties :
  foldl
    (λ groups countyName,
      groups ≫= λ g, TennesseeMap.group_push g (or_str (mapping countyName) "Rural") countyName)
    None counties = None.
Proof. by induction counties. Qed.

Lemma group_push_keys groups k x groups' :
  TennesseeMap.group_push groups k x = Some groups' → groups'.*1 = groups.*1.
Proof.
  revert groups'. induction groups as [|[k' xs] groups IH]; intros groups' Hp; [done|].
  cbn [TennesseeMap.group_push] in Hp. case_decide.
  - by simplify_eq.
  - destruct (TennesseeMap.group_push groups k x) as [g|]; [|done].
    simplify_eq/=. f_equal. by apply IH.
Qed.

Lemma regionGroups_keys mapping counties groups groups' :
  foldl
    (λ groups countyName,
      groups ≫= λ g, TennesseeMap.group_push g (or_str (mapping countyName) "Rural") countyName)
    (Some groups) counties = Some groups' →
  groups'.*1 = groups.*1.
Proof.
  revert groups. induction counties as [|n counties IH]; intros groups Hg; cbn [foldl] in Hg.
  - by simplify_eq.
  - cbn [mbind option_bind] in Hg.
    destruct (TennesseeMap.group_push groups (or_str (mapping n) "Rural") n)
      as [g|] eqn:Hp; [|by rewrite regionGroups_failed in Hg].
    rewrite (IH g Hg). by eapply group_push_keys.
Qed.

Lemma regionGroups_from mapping counties acc :
  Forall (λ n, county_category mapping n
               ∈ map TennesseeMap.Region_str TennesseeMap.regionOrder) counties →
  foldl
    (λ groups countyName,
      groups ≫= λ g, TennesseeMap.group_push g (or_str (mapping countyName) "Rural") countyName)
    (Some (groups_of acc)) counties
  = Some (groups_of
            (λ r, acc r ++ filter (λ n, county_category mapping n = TennesseeMap.Region_str r)
                                  counties)).
Proof.
  intros Hc. revert acc. induction Hc as [|n counties Hn Hc IH]; intros acc.
  - cbn [foldl]. f_equal. apply groups_of_ext. intros r. by rewrite filter_nil, app_nil_r.
  - apply list_elem_of_fmap in Hn as (r0 & Hn & _). cbn [foldl mbind option_bind].
    fold (county_category mapping n). rewrite Hn, group_push_region, IH.
    f_equal. apply groups_of_ext. intros r. case_decide as Hr.
    + subst r. rewrite filter_cons_True by done. by rewrite <-app_assoc.
    + rewrite filter_cons_False; [done|].
      rewrite Hn. by intros ?%(inj TennesseeMap.Region_str).
Qed.

(** X16. The map files every county under the region its table gives it,
    under "Rural" when the table does not list it, keeping the order of the
    boundary file: the six groups split the counties.  One county with a
    region name that is none of the six makes the grouping fail. *)
Theorem X16_region_groups (countyMapping : string → option string) (counties : list string) :
  (Forall (λ n, county_category countyMapping n
                ∈ map TennesseeMap.Region_str TennesseeMap.regionOrder) counties →
   TennesseeMap.regionGroups countyMapping counties
   = Some (groups_of
             (λ r, filter (λ n, county_category countyMapping n = TennesseeMap.Region_str r)
                          counties)))
  ∧ (∀ before n after,
       counties = before ++ n :: after →
       county_category countyMapping n
         ∉ map TennesseeMap.Region_str TennesseeMap.regionOrder →
       TennesseeMap.regionGroups countyMapping counties = None).
Proof.
  split.
  - intros Hc. unfold TennesseeMap.regionGroups.
    change TennesseeMap.emptyGroups with (groups_of (λ _, [])).
    by rewrite (regionGroups_from countyMapping counties (λ _, []) Hc).
  - intros before n after -> Hn. unfold TennesseeMap.regionGroups.
    rewrite foldl_app. cbn [foldl].
    destruct (foldl _ (Some TennesseeMap.emptyGroups) before) as [g|] eqn:Hg;
      cbn [mbind option_bind]; [|apply regionGroups_failed].
    destruct (decide (county_category countyMapping n ∈ g.*1)) as [Hin|Hnin].
    + exfalso. apply Hn. apply regionGroups_keys in Hg. rewrite Hg in Hin. exact Hin.
    + unfold county_category in Hnin. rewrite group_push_unknown by done.
      apply regionGroups_failed.
Qed.

Lemma X16_region_groups_witness :
  TennesseeMap.regionGroups demoMapping ["Shelby"; "Davidson"; "Perry"; "Knox"; "Wayne"]
  = Some [("Nashville", ["Davidson"]); ("Memphis", ["Shelby"]); ("Knoxville", ["Knox"]);
          ("Chattanooga", []); ("Other MSA", []); ("Rural", ["Perry"; "Wayne"])].
Proof.
  rewrite (proj1 (X16_region_groups demoMapping
                    ["Shelby"; "Davidson"; "Perry"; "Knox"; "Wayne"])).
  - reflexivity.
  - repeat constructor; compute_done.
Defined.

(** ** Options and scopes *)

(** X17. A sector is offered by the dropdown exactly when it is neither
    empty, "Other" nor "NA" and the statewide scope of that sector holds at
    least one row. *)
Theorem X17_options_have_rows (rawData : list DataRow) (x : string) :
  x ∈ sectors rawData ↔
  filteredByScope rawData All x ≠ [] ∧ x ≠ "" ∧ x ≠ "Other" ∧ x ≠ "NA".
Proof.
  rewrite sectors_elem_of.
  assert (x ∈ map NAICS2_NAME rawData ↔ filteredByScope rawData All x ≠ []) as ->; [|done].
  unfold filteredByScope. split.
  - intros (d & -> & Hd)%list_elem_of_fmap Hnil.
    assert (d ∈ List.filter (in_scope All (NAICS2_NAME d)) rawData) as Hin.
    { apply list_elem_of_In, filter_In. split; [by apply list_elem_of_In|].
      rewrite in_scope_All. by apply bool_decide_eq_true_2. }
    rewrite Hnil in Hin. by apply elem_of_nil in Hin.
  - destruct (List.filter (in_scope All x) rawData) as [|d l] eqn:Hf; [done|].
    intros _. assert (d ∈ List.filter (in_scope All x) rawData) as Hin.
    { rewrite Hf. apply list_elem_of_here. }
    apply list_elem_of_In, filter_In in Hin as [Hin Hs].
    rewrite in_scope_All in Hs. apply bool_decide_eq_true in Hs as <-.
    by apply list_elem_of_fmap_2, list_elem_of_In.
Qed.

(** ** Cohorts without weight *)

(** X18. With non-negative weights, a cohort of total weight zero, the empty
    scope included, gets the default age and education strategies, the
    sector strategy, the internal-mobility strategy and, for a fitting
    target, the self-employment strategy: no text that quotes a share. *)
Theorem X18_zero_total_recommendations
    (rows : list DataRow) (g : MSACategory) (sec : string) (c : CohortType)
    (target : option string) :
  Forall nonneg_weights rows →
  totalCohort (cohortBreakdowns rows c) = 0%Qc →
  recommendations g sec c target (cohortBreakdowns rows c)
  = [rec_advancement sec target; rec_flexible sec target; sector_strategy g sec c target;
     rec_internal g sec target]
    ++ (if isEntrepreneurshipViable target then [rec_self_employment sec target] else []).
Proof.
  intros Hrows Hzero.
  pose proof (shares_NaN rows c Hrows Hzero) as (Hy & Hm & Hl & Hh & Hs).
  rewrite recommendations_shape.
  unfold age_strategy, education_strategy, isYoungCohort, isMatureCohort, isLowEducation,
    isHighEducation, hasSomeCollege.
  by rewrite Hy, Hm, Hl, Hh, Hs.
Qed.

Lemma X18_zero_total_recommendations_witness :
  map title (recommendations All "Manufacturing" AllStranded None (cohortBreakdowns [] AllStranded))
  = ["Strategy: Career Advancement Pathways";
     "Strategy: Flexible Postsecondary Completion & Certificate Programs";
     "Strategy: Advanced Manufacturing Skills & Automation Training";
     "Strategy: Employer-Led Internal Mobility Systems"].
Proof.
  rewrite (X18_zero_total_recommendations [] All "Manufacturing" AllStranded None).
  - reflexivity.
  - constructor.
  - reflexivity.
Defined.

(** ** Counters and breakdowns *)

Lemma weight_sum_fields c rows :
  weight_sum c rows
  = match c with
    | LowWage => sum_by n_weighted_low_wage rows
    | Underemployed => sum_by n_weighted_underemployed rows
    | Stalled => sum_by n_weighted_stalled rows
    | AllStranded =>
        (sum_by n_weighted_low_wage rows + sum_by n_weighted_underemployed rows
         + sum_by n_weighted_stalled rows)%Qc
    end.
Proof.
  induction rows as [|d rows IH]; cbn [weight_sum sum_by foldr].
  - destruct c; [done..|]. by rewrite !Qcplus_0_l.
  - fold (weight_sum c rows). rewrite IH.
    destruct c; cbn [cohortWeight]; try done.
    fold (sum_by n_weighted_low_wage rows). fold (sum_by n_weighted_underemployed rows).
    fold (sum_by n_weighted_stalled rows). ring.
Qed.

(** X19. The bars of the education breakdown, and those of the age
    breakdown, add up to the counter of the selected cohort: the low-wage,
    underemployed or stalled stat, or the sum of the three under "All
    Stranded". *)
Theorem X19_breakdowns_match_counters (rows : list DataRow) (c : CohortType) :
  let counter :=
    match c with
    | LowWage => lw (stats rows)
    | Underemployed => ue (stats rows)
    | Stalled => st (stats rows)
    | AllStranded => (lw (stats rows) + ue (stats rows) + st (stats rows))%Qc
    end in
  sum_vals (edu (cohortBreakdowns rows c)) = counter
  ∧ sum_vals (age (cohortBreakdowns rows c)) = counter.
Proof.
  cbv zeta. rewrite edu_total, age_total, weight_sum_fields, stats_sums.
  by destruct c.
Qed.
